(** * prism: the TC capture probe and its userspace pipeline

    A shallow embedding of [bpf/http/tc_http.c] (the kernel-resident capture
    probe) and of [main.go] (transport selection, attachment, the read loops
    and shutdown), with the properties of the capture-and-transport core. *)

From Stdlib Require Import ZArith Lia.
From Stdlib.Strings Require Import Byte.
From stdpp Require Import base option list strings pretty gmap.

Local Open Scope Z_scope.

(** ** Bytes and little-endian words *)

Definition byte_val (b : byte) : Z := Z.of_N (Byte.to_N b).

#[global] Instance byte_eq_decision : EqDecision byte := Byte.byte_eq_dec.

(** The four bytes of a 32-bit word on a little-endian target. *)
Definition byte_of_Z (z : Z) : byte :=
  match Byte.of_N (Z.to_N (z mod 256)) with
  | Some b => b
  | None => x00
  end.

Definition le32 (z : Z) : list byte :=
  [byte_of_Z z; byte_of_Z (z / 256); byte_of_Z (z / 65536); byte_of_Z (z / 16777216)].

Definition le32_decode (bs : list byte) : Z :=
  match bs with
  | [b0; b1; b2; b3] =>
      byte_val b0 + 256 * byte_val b1 + 65536 * byte_val b2 + 16777216 * byte_val b3
  | _ => 0
  end.

(** ** The capture probe, [bpf/http/tc_http.c] *)

Module Probe.

Definition TC_ACT_UNSPEC : Z := -1.
Definition TC_ACT_OK : Z := 0.
Definition TC_ACT_SHOT : Z := 2.
Definition TC_ACT_STOLEN : Z := 4.
Definition TC_ACT_REDIRECT : Z := 7.

Definition ETH_P_IP : Z := 0x0800.

Definition HTTP_DATA_MIN_SIZE : Z := 91.
Definition MAX_DATA_SIZE : Z := 4000.

(** [enum tc_type { Egress, Ingress }]: the enumerators are numbered from 0. *)
Inductive tc_type := Egress | Ingress.

Definition tc_type_val (t : tc_type) : Z :=
  match t with Egress => 0 | Ingress => 1 end.

(** [struct http_data_event]; [type] holds the enumerator's integer value. *)
Record http_data_event := {
  type : Z;
  data : list byte;
  data_len : Z;
}.

(** [sizeof(struct http_data_event)]: 4 + 4000 + 4, no padding. *)
Definition sizeof_http_data_event : Z := 4 + MAX_DATA_SIZE + 4.

(** The record as it lies in the ring buffer on a little-endian target. *)
Definition wire_record (e : http_data_event) : list byte :=
  le32 (type e) ++ data e ++ le32 (data_len e).

(** What [vmlinux.h] (not part of the sources) declares and the probe uses:
    the sizes of the three headers, the offsets of [ethhdr.h_proto] and
    [iphdr.protocol] inside their structs, and [IPPROTO_TCP]. *)
Record vmlinux := {
  ETH_HLEN : Z;
  IP_HLEN : Z;
  TCP_HLEN : Z;
  h_proto_off : Z;
  protocol_off : Z;
  IPPROTO_TCP : Z;
}.

(** The layout of the Linux headers. *)
Definition linux_headers : vmlinux := {|
  ETH_HLEN := 14; IP_HLEN := 20; TCP_HLEN := 20;
  h_proto_off := 12; protocol_off := 9; IPPROTO_TCP := 6;
|}.

(** [struct __sk_buff]: [skb_data] is the address in [skb->data]; the linear
    area holds the bytes between [skb->data] and [skb->data_end], the rest of
    the packet is in fragments. *)
Record sk_buff := {
  skb_data : Z;
  skb_linear : list byte;
  skb_frags : list byte;
}.

Definition skb_len (skb : sk_buff) : Z :=
  Z.of_nat (length (skb_linear skb) + length (skb_frags skb)).

Definition skb_data_end (skb : sk_buff) : Z :=
  skb_data skb + Z.of_nat (length (skb_linear skb)).

(** Pointers the probe holds: into the per-CPU array or into the ring buffer. *)
Inductive ptr :=
  | NULL
  | HeapValue (key : nat)
  | RingRecord (pos : nat).

Definition is_null (p : ptr) : bool :=
  match p with NULL => true | _ => false end.

Inductive rb_status := Busy | Committed | Discarded.

(** The helper calls and the stores through an event pointer, in program
    order. *)
Inductive op :=
  | SkbPullData
  | MapLookup (res : ptr)
  | RingbufReserve (res : ptr)
  | RingbufSubmit (p : ptr)
  | RingbufDiscard (p : ptr)
  | StoreType (p : ptr)
  | StoreDataLen (p : ptr)
  | StoreData (p : ptr) (pos : Z).

(** The kernel state a run of the probe sees: this CPU's values of
    [data_buffer_heap], the records of [http_events] with the bytes in use,
    what the next reserved memory holds before it is written, and whether
    linearising the packet succeeds. *)
Record kstate := {
  data_buffer_heap : list http_data_event;
  http_events : list (rb_status * http_data_event);
  rb_used : Z;
  rb_stale : http_data_event;
  pull_ok : bool;
  trace : list op;
}.

Definition rb_max_entries : Z := 256 * 1024.
Definition BPF_RINGBUF_HDR_SZ : Z := 8.

Definition log_op (o : op) (k : kstate) : kstate :=
  {| data_buffer_heap := data_buffer_heap k; http_events := http_events k;
     rb_used := rb_used k; rb_stale := rb_stale k; pull_ok := pull_ok k;
     trace := trace k ++ [o] |}.

Definition set_heap (h : list http_data_event) (k : kstate) : kstate :=
  {| data_buffer_heap := h; http_events := http_events k;
     rb_used := rb_used k; rb_stale := rb_stale k; pull_ok := pull_ok k;
     trace := trace k |}.

Definition set_events (r : list (rb_status * http_data_event)) (k : kstate) : kstate :=
  {| data_buffer_heap := data_buffer_heap k; http_events := r;
     rb_used := rb_used k; rb_stale := rb_stale k; pull_ok := pull_ok k;
     trace := trace k |}.

Definition set_used (u : Z) (k : kstate) : kstate :=
  {| data_buffer_heap := data_buffer_heap k; http_events := http_events k;
     rb_used := u; rb_stale := rb_stale k; pull_ok := pull_ok k;
     trace := trace k |}.

(** [bpf_skb_pull_data(skb, len)]: makes the first [len] bytes of the packet
    linear; when it fails the packet is left as it was. The probe ignores the
    return value. *)
Definition bpf_skb_pull_data (skb : sk_buff) (len : Z) (k : kstate) : sk_buff * kstate :=
  let k := log_op SkbPullData k in
  let have := Z.of_nat (length (skb_linear skb)) in
  if (len <=? have) || negb (pull_ok k) then (skb, k)
  else
    let n := Z.to_nat (len - have) in
    ({| skb_data := skb_data skb;
        skb_linear := skb_linear skb ++ take n (skb_frags skb);
        skb_frags := drop n (skb_frags skb) |}, k).

(** [bpf_map_lookup_elem(&data_buffer_heap, &key)]. *)
Definition bpf_map_lookup_elem (key : Z) (k : kstate) : ptr * kstate :=
  let p :=
    if (0 <=? key) && (key <? Z.of_nat (length (data_buffer_heap k)))
    then HeapValue (Z.to_nat key) else NULL in
  (p, log_op (MapLookup p) k).

(** [bpf_ringbuf_reserve(&http_events, size, 0)]: a busy record of [size]
    bytes behind an 8-byte header, or NULL when the buffer is full. The
    memory is handed out as it is, not cleared. *)
Definition bpf_ringbuf_reserve (size : Z) (k : kstate) : ptr * kstate :=
  let need := (size + BPF_RINGBUF_HDR_SZ + 7) / 8 * 8 in
  if rb_used k + need >? rb_max_entries then
    (NULL, log_op (RingbufReserve NULL) k)
  else
    let p := RingRecord (length (http_events k)) in
    let fresh := {| type := type (rb_stale k);
                    data := resize (Z.to_nat MAX_DATA_SIZE) x00 (data (rb_stale k));
                    data_len := data_len (rb_stale k) |} in
    (p, log_op (RingbufReserve p)
          (set_used (rb_used k + need)
             (set_events (http_events k ++ [(Busy, fresh)]) k))).

(** [bpf_ringbuf_submit(p, 0)]. *)
Definition bpf_ringbuf_submit (p : ptr) (k : kstate) : kstate :=
  let k := log_op (RingbufSubmit p) k in
  match p with
  | RingRecord i => set_events (alter (λ r, (Committed, r.2)) i (http_events k)) k
  | _ => k
  end.

(** A store through an event pointer. *)
Definition store (p : ptr) (f : http_data_event → http_data_event) (k : kstate) : kstate :=
  match p with
  | NULL => k
  | HeapValue i => set_heap (alter f i (data_buffer_heap k)) k
  | RingRecord i => set_events (alter (λ r, (r.1, f r.2)) i (http_events k)) k
  end.

Definition store_type (p : ptr) (t : tc_type) (k : kstate) : kstate :=
  store p (λ e, {| type := tc_type_val t; data := data e; data_len := data_len e |})
    (log_op (StoreType p) k).

Definition store_data_len (p : ptr) (n : Z) (k : kstate) : kstate :=
  store p (λ e, {| type := type e; data := data e; data_len := n |})
    (log_op (StoreDataLen p) k).

Definition store_data (p : ptr) (pos : Z) (b : byte) (k : kstate) : kstate :=
  store p (λ e, {| type := type e; data := <[Z.to_nat pos := b]> (data e);
                   data_len := data_len e |})
    (log_op (StoreData p pos) k).

(** Loads from the packet, by address; the target is little-endian. *)
Definition load_byte (skb : sk_buff) (addr : Z) : byte :=
  if addr <? skb_data skb then x00
  else default x00 (skb_linear skb !! Z.to_nat (addr - skb_data skb)).

Definition load_u8 (skb : sk_buff) (addr : Z) : Z := byte_val (load_byte skb addr).

Definition load_u16 (skb : sk_buff) (addr : Z) : Z :=
  load_u8 skb addr + 256 * load_u8 skb (addr + 1).

Definition bpf_htons (x : Z) : Z := (x mod 256) * 256 + (x / 256) mod 256.

Definition create_http_data_event (k : kstate) : ptr * kstate :=
  let kZero := 0 in
  let '(event, k) := bpf_map_lookup_elem kZero k in
  if is_null event then (NULL, k) else (event, k).

(** The copy loop of [capture_packets]: [iters] is what is left of the
    [MAX_DATA_SIZE] iterations. *)
Fixpoint copy_loop (iters : nat) (skb : sk_buff) (data_end : Z) (event : ptr)
    (cursor name_pos : Z) (k : kstate) : kstate :=
  match iters with
  | O => k
  | S n =>
      if cursor + 1 >? data_end then k
      else
        let k := store_data event name_pos (load_byte skb cursor) k in
        copy_loop n skb data_end event (cursor + 1) (name_pos + 1) k
  end.

Section WithHeaders.

Variable V : vmlinux.

Definition capture_packets (skb : sk_buff) (type : tc_type) (k : kstate) : Z * kstate :=
  let '(skb, k) := bpf_skb_pull_data skb (skb_len skb) k in
  let data_start := skb_data skb in
  let data_end := skb_data_end skb in
  if data_start + ETH_HLEN V + IP_HLEN V + TCP_HLEN V >? data_end then (TC_ACT_OK, k)
  else if negb (load_u16 skb (data_start + h_proto_off V) =? bpf_htons ETH_P_IP)
  then (TC_ACT_OK, k)
  else if negb (load_u8 skb (data_start + ETH_HLEN V + protocol_off V) =? IPPROTO_TCP V)
  then (TC_ACT_OK, k)
  else
    let len := (data_end - data_start) mod 2 ^ 32 in
    if len <? 0 then (TC_ACT_OK, k)
    else if len <=? HTTP_DATA_MIN_SIZE then (TC_ACT_OK, k)
    else
      let '(event, k) := create_http_data_event k in
      if is_null event then (TC_ACT_OK, k)
      else
        let '(event, k) := bpf_ringbuf_reserve sizeof_http_data_event k in
        if is_null event then (0, k)
        else
          let k := store_type event type k in
          let k := store_data_len event (if len <? MAX_DATA_SIZE then len else MAX_DATA_SIZE) k in
          let cursor := skb_data skb in
          let name_pos := 0 in
          let k := copy_loop (Z.to_nat MAX_DATA_SIZE) skb data_end event cursor name_pos k in
          let k := bpf_ringbuf_submit event k in
          (TC_ACT_OK, k).

Definition egress_cls_func (skb : sk_buff) (k : kstate) : Z * kstate :=
  capture_packets skb Egress k.

Definition ingress_cls_func (skb : sk_buff) (k : kstate) : Z * kstate :=
  capture_packets skb Ingress k.

(** What the probe sees of a packet: the packet after [bpf_skb_pull_data],
    and the frame length [data_end - data_start]. *)
Definition pulled (skb : sk_buff) (k : kstate) : sk_buff :=
  (bpf_skb_pull_data skb (skb_len skb) k).1.

Definition frame (skb : sk_buff) (k : kstate) : list byte :=
  skb_linear (pulled skb k).

Definition frame_length (skb : sk_buff) (k : kstate) : Z :=
  skb_data_end (pulled skb k) - skb_data (pulled skb k).

(** The header fields in network byte order, and the four filters as the
    specification words them. *)
Definition ethertype (skb : sk_buff) : Z :=
  256 * load_u8 skb (skb_data skb + h_proto_off V)
  + load_u8 skb (skb_data skb + h_proto_off V + 1).

Definition ip_protocol (skb : sk_buff) : Z :=
  load_u8 skb (skb_data skb + ETH_HLEN V + protocol_off V).

Definition passes_filters (skb : sk_buff) (k : kstate) : bool :=
  (ETH_HLEN V + IP_HLEN V + TCP_HLEN V <=? frame_length skb k)
  && (ethertype (pulled skb k) =? ETH_P_IP)
  && (ip_protocol (pulled skb k) =? IPPROTO_TCP V)
  && (HTTP_DATA_MIN_SIZE <? frame_length skb k).

(** Whether a run gets as far as writing an event: the filters as the code
    tests them (on the 32-bit [len]), a value in the per-CPU array, and room
    in the ring buffer. *)
Definition captures (skb : sk_buff) (k : kstate) : bool :=
  (ETH_HLEN V + IP_HLEN V + TCP_HLEN V <=? frame_length skb k)
  && (ethertype (pulled skb k) =? ETH_P_IP)
  && (ip_protocol (pulled skb k) =? IPPROTO_TCP V)
  && (HTTP_DATA_MIN_SIZE <? frame_length skb k mod 2 ^ 32)
  && negb (bool_decide (data_buffer_heap k = []))
  && (rb_used k + 4016 <=? rb_max_entries).

End WithHeaders.

(** The effect of the copy loop on the payload and on the trace, as functions
    of the frame. *)
Fixpoint copy_bytes (iters : nat) (fr : list byte) (j : nat) (d : list byte) : list byte :=
  match iters with
  | O => d
  | S n =>
      match fr !! j with
      | None => d
      | Some b => copy_bytes n fr (S j) (<[j := b]> d)
      end
  end.

Fixpoint copy_trace (iters : nat) (fr : list byte) (j : nat) (p : ptr) : list op :=
  match iters with
  | O => []
  | S n =>
      match fr !! j with
      | None => []
      | Some _ => StoreData p (Z.of_nat j) :: copy_trace n fr (S j) p
      end
  end.

(** The event a capturing run leaves in the ring buffer, and the trace of a
    capturing run. *)
Definition captured_event (ty : tc_type) (skb : sk_buff) (k : kstate) : http_data_event :=
  let len := frame_length skb k mod 2 ^ 32 in
  {| type := tc_type_val ty;
     data := copy_bytes (Z.to_nat MAX_DATA_SIZE) (frame skb k) 0
               (resize (Z.to_nat MAX_DATA_SIZE) x00 (data (rb_stale k)));
     data_len := if len <? MAX_DATA_SIZE then len else MAX_DATA_SIZE |}.

Definition capture_trace (skb : sk_buff) (k : kstate) : list op :=
  let p := RingRecord (length (http_events k)) in
  [SkbPullData; MapLookup (HeapValue 0); RingbufReserve p; StoreType p; StoreDataLen p]
  ++ copy_trace (Z.to_nat MAX_DATA_SIZE) (frame skb k) 0 p
  ++ [RingbufSubmit p].

Definition reserves (t : list op) : list ptr :=
  omap (λ o, match o with
             | RingbufReserve p => if is_null p then None else Some p
             | _ => None
             end) t.

Definition submits (t : list op) : list ptr :=
  omap (λ o, match o with RingbufSubmit p => Some p | _ => None end) t.

Definition discards (t : list op) : list ptr :=
  omap (λ o, match o with RingbufDiscard p => Some p | _ => None end) t.

(** What a hook reports about a frame: either no record is added to the
    ring, or one committed record whose length, payload prefix and direction
    are those of the frame and of the hook; [code] is the direction as it is
    encoded at offset 0 of the wire record. *)
Definition hook_reports (hook : sk_buff → kstate → Z * kstate) (d : tc_type)
    (code : Z) (skb : sk_buff) (k : kstate) : Prop :=
  let k' := (hook skb k).2 in
  http_events k' = http_events k
  ∨ ∃ ev, http_events k' = http_events k ++ [(Committed, ev)]
      ∧ data_len ev = Z.min (frame_length skb k) MAX_DATA_SIZE
      ∧ take (Z.to_nat (data_len ev)) (data ev)
        = take (Z.to_nat (data_len ev)) (frame skb k)
      ∧ type ev = tc_type_val d
      ∧ take 4 (wire_record ev) = le32 code.

(** The target of a store, for the operations that are stores. *)
Definition store_target (o : op) : option ptr :=
  match o with
  | StoreType p | StoreDataLen p | StoreData p _ => Some p
  | _ => None
  end.

(** Frames and a kernel state to run the probe on: an Ethernet + IPv4 + TCP
    frame of [n] bytes carrying the start of an HTTP request, an ARP frame,
    and a kernel whose ring buffer is empty. *)
Definition http_frame (n : nat) : list byte :=
  take n (<[12%nat := x08]> (<[13%nat := x00]> (<[23%nat := x06]> (replicate 54 x00)))
          ++ String.list_byte_of_string "GET / HTTP/1.1" ++ [x0d; x0a] ++ replicate n x20).

Definition arp_frame : list byte :=
  <[12%nat := x08]> (<[13%nat := x06]> (replicate 120 x00)).

Definition skb_of (fr : list byte) : sk_buff :=
  {| skb_data := 4096; skb_linear := take 64 fr; skb_frags := drop 64 fr |}.

Definition idle_kernel : kstate :=
  {| data_buffer_heap := [ {| type := 0; data := replicate 4000 x00; data_len := 0 |} ];
     http_events := []; rb_used := 0;
     rb_stale := {| type := 3; data := replicate 4000 xff; data_len := 17 |};
     pull_ok := true; trace := [] |}.

End Probe.

(** ** The userspace side, [main.go] *)

Module Prism.

(** *** Errors, events and the decoding of a record *)

(** Go errors: [ErrClosed] is [os.ErrClosed], of which both [perf.ErrClosed]
    and [ringbuf.ErrClosed] are aliases; [ErrWrap] is [fmt.Errorf] with [%w]. *)
Inductive error :=
  | ErrClosed
  | ErrOther (msg : string)
  | ErrWrap (msg : string) (e : error).

Fixpoint error_string (e : error) : string :=
  match e with
  | ErrClosed => "file already closed"
  | ErrOther msg => msg
  | ErrWrap msg e => msg +:+ ": " +:+ error_string e
  end.

(** [errors.Is(err, perf.ErrClosed)]: the chain of wrapped errors is
    searched for the sentinel. *)
Fixpoint errors_Is_ErrClosed (err : error) : bool :=
  match err with
  | ErrClosed => true
  | ErrOther _ => false
  | ErrWrap _ e => errors_Is_ErrClosed e
  end.

Inductive result (A : Type) :=
  | Ok (a : A)
  | Err (e : error).
Arguments Ok {A} a.
Arguments Err {A} e.

(** Modelled from the spec: the types [ringbufHttpDataEvent] and
    [perfHttpDataEvent] are generated by bpf2go and are not in the sources;
    the wire record layout gives their fields, a 4-byte [Type], 4000 bytes
    of [Data] and a 4-byte [DataLen]. *)
Record httpDataEvent := {
  ev_Type : Z;
  ev_Data : list byte;
  ev_DataLen : Z;
}.

Definition record_size : nat := 4008.

(** [binary.Read(bytes.NewBuffer(raw), binary.LittleEndian, &event)]: reads
    exactly the size of the struct; fewer bytes are an error, more are left
    unread. *)
Definition binary_Read (raw : list byte) : result httpDataEvent :=
  if decide (length raw = 0)%nat then Err (ErrOther "EOF")
  else if decide (length raw < record_size)%nat then Err (ErrOther "unexpected EOF")
  else Ok {| ev_Type := le32_decode (take 4 raw);
             ev_Data := take 4000 (drop 4 raw);
             ev_DataLen := le32_decode (take 4 (drop 4004 raw)) |}.

(** *** The kernel's TC tables as netlink shows them *)

Definition HANDLE_CLSACT : Z := 0xFFFFFFF1.
Definition HANDLE_MIN_INGRESS : Z := 0xFFFFFFF2.
Definition HANDLE_MIN_EGRESS : Z := 0xFFFFFFF3.
Definition ETH_P_ALL : Z := 3.

Definition MakeHandle (major minor : Z) : Z := major * 65536 + minor.

Record Link := {
  link_Index : Z;
  link_Name : string;
}.

Record GenericQdisc := {
  q_LinkIndex : Z;
  q_Handle : Z;
  q_Parent : Z;
  q_QdiscType : string;
}.

Record BpfFilter := {
  f_LinkIndex : Z;
  f_Parent : Z;
  f_Handle : Z;
  f_Protocol : Z;
  f_Priority : Z;
  f_Fd : Z;
  f_Name : string;
  f_DirectAction : bool;
}.

(** A qdisc is identified by its interface and parent, a filter by its
    interface, parent, priority and handle. *)
Definition qdisc_key (q : GenericQdisc) : Z * Z := (q_LinkIndex q, q_Parent q).

Definition filter_key (f : BpfFilter) : Z * Z * Z * Z :=
  (f_LinkIndex f, f_Parent f, f_Priority f, f_Handle f).

Inductive nl_op :=
  | NlQdiscReplace (k : Z * Z)
  | NlFilterReplace (k : Z * Z * Z * Z)
  | NlFilterDel (k : Z * Z * Z * Z).

Inductive TransportMode := RingBuffer | PerfBuffer.

Inductive resource := Objs | Db | Reader.

Inductive deferred_call :=
  | DeferClose (r : resource)
  | DeferFilterDel (f : BpfFilter).

(** What the process acts on: the TC tables of the host, the netlink calls
    made with their results, the log, the probe objects loaded, the reads of
    the kernel version, the calls deferred by [main], and what was closed. *)
Record world := {
  tc_qdiscs : gmap (Z * Z) GenericQdisc;
  tc_filters : gmap (Z * Z * Z * Z) BpfFilter;
  nl_calls : list (nl_op * option error);
  logs : list string;
  loaded : list TransportMode;
  kver_reads : nat;
  deferred : list deferred_call;
  closed : list resource;
}.

Definition log_Printf (msg : string) (w : world) : world :=
  {| tc_qdiscs := tc_qdiscs w; tc_filters := tc_filters w; nl_calls := nl_calls w;
     logs := logs w ++ [msg]; loaded := loaded w; kver_reads := kver_reads w;
     deferred := deferred w; closed := closed w |}.

Definition add_logs (msgs : list string) (w : world) : world :=
  {| tc_qdiscs := tc_qdiscs w; tc_filters := tc_filters w; nl_calls := nl_calls w;
     logs := logs w ++ msgs; loaded := loaded w; kver_reads := kver_reads w;
     deferred := deferred w; closed := closed w |}.

Definition set_tc (qs : gmap (Z * Z) GenericQdisc) (fs : gmap (Z * Z * Z * Z) BpfFilter)
    (c : nl_op * option error) (w : world) : world :=
  {| tc_qdiscs := qs; tc_filters := fs; nl_calls := nl_calls w ++ [c];
     logs := logs w; loaded := loaded w; kver_reads := kver_reads w;
     deferred := deferred w; closed := closed w |}.

Definition note_load (m : TransportMode) (w : world) : world :=
  {| tc_qdiscs := tc_qdiscs w; tc_filters := tc_filters w; nl_calls := nl_calls w;
     logs := logs w; loaded := loaded w ++ [m]; kver_reads := kver_reads w;
     deferred := deferred w; closed := closed w |}.

Definition note_kver_read (w : world) : world :=
  {| tc_qdiscs := tc_qdiscs w; tc_filters := tc_filters w; nl_calls := nl_calls w;
     logs := logs w; loaded := loaded w; kver_reads := S (kver_reads w);
     deferred := deferred w; closed := closed w |}.

Definition set_deferred (ds : list deferred_call) (w : world) : world :=
  {| tc_qdiscs := tc_qdiscs w; tc_filters := tc_filters w; nl_calls := nl_calls w;
     logs := logs w; loaded := loaded w; kver_reads := kver_reads w;
     deferred := ds; closed := closed w |}.

Definition close_resource (r : resource) (w : world) : world :=
  {| tc_qdiscs := tc_qdiscs w; tc_filters := tc_filters w; nl_calls := nl_calls w;
     logs := logs w; loaded := loaded w; kver_reads := kver_reads w;
     deferred := deferred w; closed := closed w ++ [r] |}.

(** The netlink calls. [fault n] is the error, if any, that the kernel
    answers to the [n]-th netlink call of the process (no permission, no
    memory, ...); a failed call changes nothing. *)
Section Netlink.

Variable fault : nat → option error.

(** [netlink.QdiscReplace]: create the qdisc or replace the one with its
    key. *)
Definition QdiscReplace (q : GenericQdisc) (w : world) : option error * world :=
  match fault (length (nl_calls w)) with
  | Some e => (Some e, set_tc (tc_qdiscs w) (tc_filters w) (NlQdiscReplace (qdisc_key q), Some e) w)
  | None =>
      (None, set_tc (<[qdisc_key q := q]> (tc_qdiscs w)) (tc_filters w)
               (NlQdiscReplace (qdisc_key q), None) w)
  end.

(** [netlink.FilterReplace]: create the filter or replace the one with its
    key; the parent qdisc must exist. *)
Definition FilterReplace (f : BpfFilter) (w : world) : option error * world :=
  let failed e := (Some e, set_tc (tc_qdiscs w) (tc_filters w)
                             (NlFilterReplace (filter_key f), Some e) w) in
  match fault (length (nl_calls w)) with
  | Some e => failed e
  | None =>
      match tc_qdiscs w !! (f_LinkIndex f, HANDLE_CLSACT) with
      | None => failed (ErrOther "invalid argument")
      | Some _ =>
          (None, set_tc (tc_qdiscs w) (<[filter_key f := f]> (tc_filters w))
                   (NlFilterReplace (filter_key f), None) w)
      end
  end.

(** [netlink.FilterDel]: delete the filter with this key; an absent filter
    is an error. *)
Definition FilterDel (f : BpfFilter) (w : world) : option error * world :=
  let failed e := (Some e, set_tc (tc_qdiscs w) (tc_filters w)
                             (NlFilterDel (filter_key f), Some e) w) in
  match fault (length (nl_calls w)) with
  | Some e => failed e
  | None =>
      match tc_filters w !! filter_key f with
      | None => failed (ErrOther "no such file or directory")
      | Some _ =>
          (None, set_tc (tc_qdiscs w) (delete (filter_key f) (tc_filters w))
                   (NlFilterDel (filter_key f), None) w)
      end
  end.

(** replace Qdisc queue *)
Definition replaceQdisc (link : Link) (w : world) : option error * world :=
  let qdisc := {| q_LinkIndex := link_Index link;
                  q_Handle := MakeHandle 0xffff 0;
                  q_Parent := HANDLE_CLSACT;
                  q_QdiscType := "clsact" |} in
  QdiscReplace qdisc w.

(** attach TC program; [prog_fd] is [prog.FD()]. *)
Definition attachTC (link : Link) (prog_fd : Z) (progName : string) (qdiscParent : Z)
    (w : world) : result BpfFilter * world :=
  match replaceQdisc link w with
  | (Some err, w) =>
      (Err (ErrWrap ("replacing clsact qdisc for interface " +:+ link_Name link) err), w)
  | (None, w) =>
      let filter := {| f_LinkIndex := link_Index link;
                       f_Parent := qdiscParent;
                       f_Handle := 1;
                       f_Protocol := ETH_P_ALL;
                       f_Priority := 1;
                       f_Fd := prog_fd;
                       f_Name := progName +:+ "-" +:+ link_Name link;
                       f_DirectAction := true |} in
      match FilterReplace filter w with
      | (Some err, w) => (Err (ErrWrap "replacing tc filter" err), w)
      | (None, w) => (Ok filter, w)
      end
  end.

End Netlink.

(** The filters of one direction of an interface. *)
Definition direction_filters (idx parent : Z) (w : world) : gmap (Z * Z * Z * Z) BpfFilter :=
  filter (λ kf, kf.1.1.1.1 = idx ∧ kf.1.1.1.2 = parent) (tc_filters w).

Definition link_qdiscs (idx : Z) (w : world) : gmap (Z * Z) GenericQdisc :=
  filter (λ kq, kq.1.1 = idx ∧ kq.1.2 = HANDLE_CLSACT) (tc_qdiscs w).

(** *** The read loops and the shutdown goroutine *)

(** [queueTask], a channel of capacity 100. *)
Definition queue_capacity : nat := 100.

(** What [rd.Read()] yields: a record with its [RawSample], or an error. *)
Inductive read_result :=
  | ReadRecord (RawSample : list byte)
  | ReadError (e : error).

(** Where the goroutine started by [main] stands: before [<-stopper], before
    [close(queueTask)], before [rd.Close()], or done. *)
Inductive coordinator_pc := AwaitSignal | CloseQueue | CloseReader | CoordinatorDone.

(** Where the [for] loop of [runRingBuf] or [runPerf] stands: before
    [rd.Read()], before [queueTask <- event], after its [return], or
    panicking. *)
Inductive loop_pc :=
  | AtRead
  | AtSend (event : httpDataEvent)
  | LoopReturned
  | LoopPanicked.

(** Why the main goroutine does not get to return: [log.Fatal] exits, the
    main goroutine panics, another goroutine panics, or the process is still
    running. *)
Inductive stop := Fatal | PanicMain | PanicOther | Running.

(** How the process ends: [main] returns, or it is stopped before. *)
Inductive exit := Returned | Stopped (why : stop).

Record sys := {
  q_buf : list httpDataEvent;
  q_closed : bool;
  stopper : bool;
  rd_closed : bool;
  coordinator : coordinator_pc;
  loop : loop_pc;
  consumer_done : bool;
  parsed : list (list byte);
  sys_logs : list string;
  halted : option stop;
}.

(** One scheduling decision: the OS delivers the signal, or one of the three
    goroutines takes its next step. [Coordinator] carries what [rd.Close()]
    answers, [ReadLoop] what a read on an open reader yields. *)
Inductive action :=
  | Signal
  | Coordinator (close_err : option error)
  | ReadLoop (r : read_result)
  | Consumer.

Definition sys_log (msg : string) (s : sys) : sys :=
  {| q_buf := q_buf s; q_closed := q_closed s; stopper := stopper s;
     rd_closed := rd_closed s; coordinator := coordinator s; loop := loop s;
     consumer_done := consumer_done s; parsed := parsed s;
     sys_logs := sys_logs s ++ [msg]; halted := halted s |}.

Definition set_loop (pc : loop_pc) (s : sys) : sys :=
  {| q_buf := q_buf s; q_closed := q_closed s; stopper := stopper s;
     rd_closed := rd_closed s; coordinator := coordinator s; loop := pc;
     consumer_done := consumer_done s; parsed := parsed s;
     sys_logs := sys_logs s; halted := halted s |}.

Definition set_queue (buf : list httpDataEvent) (cl : bool) (s : sys) : sys :=
  {| q_buf := buf; q_closed := cl; stopper := stopper s;
     rd_closed := rd_closed s; coordinator := coordinator s; loop := loop s;
     consumer_done := consumer_done s; parsed := parsed s;
     sys_logs := sys_logs s; halted := halted s |}.

Definition set_coordinator (pc : coordinator_pc) (sig rdc : bool) (s : sys) : sys :=
  {| q_buf := q_buf s; q_closed := q_closed s; stopper := sig;
     rd_closed := rdc; coordinator := pc; loop := loop s;
     consumer_done := consumer_done s; parsed := parsed s;
     sys_logs := sys_logs s; halted := halted s |}.

Definition set_consumer (done : bool) (ps : list (list byte)) (s : sys) : sys :=
  {| q_buf := q_buf s; q_closed := q_closed s; stopper := stopper s;
     rd_closed := rd_closed s; coordinator := coordinator s; loop := loop s;
     consumer_done := done; parsed := ps;
     sys_logs := sys_logs s; halted := halted s |}.

Definition halt (e : stop) (s : sys) : sys :=
  {| q_buf := q_buf s; q_closed := q_closed s; stopper := stopper s;
     rd_closed := rd_closed s; coordinator := coordinator s; loop := loop s;
     consumer_done := consumer_done s; parsed := parsed s;
     sys_logs := sys_logs s; halted := Some e |}.

(** [signal.Notify(stopper, ...)] with a channel of capacity 1: a signal
    that finds the channel full is dropped. *)
Definition deliver_signal (s : sys) : sys :=
  set_coordinator (coordinator s) true (rd_closed s) s.

(** The goroutine of [main]: [<-stopper; close(queueTask); rd.Close()]. *)
Definition coordinator_step (close_err : option error) (s : sys) : sys :=
  match coordinator s with
  | AwaitSignal =>
      if stopper s then set_coordinator CloseQueue false (rd_closed s) s else s
  | CloseQueue =>
      if q_closed s then halt PanicOther s
      else set_coordinator CloseReader (stopper s) (rd_closed s)
             (set_queue (q_buf s) true s)
  | CloseReader =>
      match close_err with
      | Some err =>
          halt Fatal (sys_log ("closing perf event reader: " +:+ error_string err) s)
      | None => set_coordinator CoordinatorDone (stopper s) true s
      end
  | CoordinatorDone => s
  end.

(** [rd.Read()]: on a closed reader the distinguished error, otherwise what
    the transport yields. *)
Definition rd_Read (r : read_result) (s : sys) : read_result :=
  if rd_closed s then ReadError ErrClosed else r.

(** [queueTask <- event]: a panic on a closed channel, blocked while the
    channel is full. *)
Definition queue_send (event : httpDataEvent) (s : sys) : sys :=
  if q_closed s then halt PanicMain (set_loop LoopPanicked s)
  else if decide (length (q_buf s) < queue_capacity)%nat
       then set_loop AtRead (set_queue (q_buf s ++ [event]) (q_closed s) s)
       else s.

(** One step of the [for] loop of [runRingBuf]. *)
Definition runRingBuf_loop (r : read_result) (s : sys) : sys :=
  match loop s with
  | AtRead =>
      match rd_Read r s with
      | ReadError err =>
          if errors_Is_ErrClosed err then
            set_loop LoopReturned (sys_log "file already closed" s)
          else
            sys_log ("reading from perf event reader: " +:+ error_string err) s
      | ReadRecord RawSample =>
          match binary_Read RawSample with
          | Err err => sys_log ("parsing perf event: " +:+ error_string err) s
          | Ok event => set_loop (AtSend event) s
          end
      end
  | AtSend event => queue_send event s
  | LoopReturned | LoopPanicked => s
  end.

(** One step of the [for] loop of [runPerf]. *)
Definition runPerf_loop (r : read_result) (s : sys) : sys :=
  match loop s with
  | AtRead =>
      match rd_Read r s with
      | ReadError err =>
          if errors_Is_ErrClosed err then
            set_loop LoopReturned (sys_log "file already closed" s)
          else
            sys_log ("reading from perf event reader: " +:+ error_string err) s
      | ReadRecord RawSample =>
          match binary_Read RawSample with
          | Err err => sys_log ("parsing perf event: " +:+ error_string err) s
          | Ok event => set_loop (AtSend event) s
          end
      end
  | AtSend event => queue_send event s
  | LoopReturned | LoopPanicked => s
  end.

(** The goroutine [for task := range queueTask { parseHttp(saveChan,
    task.Data[:task.DataLen]) }]: the slice expression panics when [DataLen]
    exceeds the 4000 bytes of [Data]; [parseHttp] is outside the core and is
    only handed the slice. *)
Definition consumer_step (s : sys) : sys :=
  if consumer_done s then s
  else
    match q_buf s with
    | task :: rest =>
        if 4000 <? ev_DataLen task then halt PanicOther s
        else set_consumer false
               (parsed s ++ [take (Z.to_nat (ev_DataLen task)) (ev_Data task)])
               (set_queue rest (q_closed s) s)
    | [] => if q_closed s then set_consumer true (parsed s) s else s
    end.

(** The process stops scheduling once it has exited or the loop has
    returned to [main]. *)
Definition finished (s : sys) : bool :=
  match halted s, loop s with
  | Some _, _ => true
  | None, LoopReturned => true
  | None, _ => false
  end.

Definition step (mode : TransportMode) (a : action) (s : sys) : sys :=
  if finished s then s
  else
    match a with
    | Signal => deliver_signal s
    | Coordinator close_err => coordinator_step close_err s
    | ReadLoop r =>
        match mode with
        | RingBuffer => runRingBuf_loop r s
        | PerfBuffer => runPerf_loop r s
        end
    | Consumer => consumer_step s
    end.

Definition exec (mode : TransportMode) (sched : list action) (s : sys) : sys :=
  foldl (λ s a, step mode a s) s sched.

(** The state in which the loop is entered. *)
Definition sys_start : sys :=
  {| q_buf := []; q_closed := false; stopper := false; rd_closed := false;
     coordinator := AwaitSignal; loop := AtRead; consumer_done := false;
     parsed := []; sys_logs := []; halted := None |}.

(** What a step of the loop does, given what the read yields. *)
Definition loop_step_spec (loop_step : read_result → sys → sys) : Prop :=
  ∀ r s,
    (loop s = AtRead →
       match rd_Read r s with
       | ReadError err =>
           if errors_Is_ErrClosed err then
             loop (loop_step r s) = LoopReturned
             ∧ halted (loop_step r s) = halted s
             ∧ q_buf (loop_step r s) = q_buf s
           else
             loop (loop_step r s) = AtRead
             ∧ halted (loop_step r s) = halted s
             ∧ q_buf (loop_step r s) = q_buf s
             ∧ sys_logs (loop_step r s)
               = sys_logs s ++ ["reading from perf event reader: " +:+ error_string err]
       | ReadRecord raw =>
           match binary_Read raw with
           | Err err =>
               loop (loop_step r s) = AtRead
               ∧ halted (loop_step r s) = halted s
               ∧ q_buf (loop_step r s) = q_buf s
               ∧ sys_logs (loop_step r s)
                 = sys_logs s ++ ["parsing perf event: " +:+ error_string err]
           | Ok event =>
               loop (loop_step r s) = AtSend event
               ∧ halted (loop_step r s) = halted s
               ∧ q_buf (loop_step r s) = q_buf s
           end
       end)
    ∧ (loop (loop_step r s) = LoopReturned →
         loop s = LoopReturned
         ∨ (loop s = AtRead
            ∧ ∃ err, rd_Read r s = ReadError err ∧ errors_Is_ErrClosed err = true)).

(** *** [main] *)

(** A computation of the main goroutine: it yields a value, or the process
    stops there. *)
Inductive outcome (A : Type) :=
  | Val (a : A)
  | Stop (e : stop).
Arguments Val {A} a.
Arguments Stop {A} e.

Definition M (A : Type) : Type := world → outcome A * world.

#[global] Instance M_ret : MRet M := λ A a w, (Val a, w).

#[global] Instance M_bind : MBind M := λ A B f m w,
  match m w with
  | (Val a, w) => f a w
  | (Stop e, w) => (Stop e, w)
  end.

Definition act (f : world → world) : M unit := λ w, (Val tt, f w).

Definition call {A} (f : world → A * world) : M A := λ w, (Val (f w).1, (f w).2).

(** [log.Fatalf]: the line is logged and [os.Exit(1)] ends the process; the
    deferred calls do not run. *)
Definition log_Fatalf {A} (msg : string) : M A := λ w, (Stop Fatal, log_Printf msg w).

(** [defer]: the call, with its arguments as they are now, goes on the stack
    of the frame of [main]. *)
Definition defer_ (d : deferred_call) : M unit :=
  act (λ w, set_deferred (d :: deferred w) w).

Definition dquote : string :=
  String (Ascii.Ascii false true false false false true false false) EmptyString.

(** What the process finds on the host and how its goroutines are scheduled:
    the value of the flag [-n], the answers of [net.InterfaceByName],
    [GetKernelVersion], the loader of the probe objects with the descriptors
    of the two programs, [netlink.LinkByIndex], the netlink calls, the
    constructor of the reader and [leveldb.OpenFile], the TC tables before
    the process starts, and the schedule of the concurrent phase. *)
Record env := {
  InterfaceName : string;
  InterfaceByName : result Link;
  GetKernelVersion : result Z;
  loadObjects : option error;
  IngressClsFunc : Z;
  EgressClsFunc : Z;
  LinkByIndex : Z → result Link;
  nl_fault : nat → option error;
  NewReader : option error;
  OpenFile : option error;
  host_qdiscs : gmap (Z * Z) GenericQdisc;
  host_filters : gmap (Z * Z * Z * Z) BpfFilter;
  schedule : list action;
}.

Section Main.

(** Modelled from the spec: [minKernelVer], the threshold behind
    [isMaxKernelVer], [isMinKernelVer] and [isMaxKernelVer] are defined in a
    file that is not in the sources. A version at or above the hard minimum
    is supported; a version at or above the second threshold has the ring
    buffer. Versions are compared as integers. *)
Variables minKernelVer maxKernelVer : Z.

Definition isMinKernelVer (v : Z) : bool := minKernelVer <=? v.

Definition isMaxKernelVer (v : Z) : bool := maxKernelVer <=? v.

Variable E : env.

(** A deferred call when it runs; the result of [netlink.FilterDel] is
    dropped. *)
Definition run_deferred_call (d : deferred_call) (w : world) : world :=
  match d with
  | DeferClose r => close_resource r w
  | DeferFilterDel f => (FilterDel (nl_fault E) f w).2
  end.

Definition run_deferred (w : world) : world :=
  foldl (λ w d, run_deferred_call d w) (set_deferred [] w) (deferred w).

(** The loop of a transport as [main] sees it: the goroutines run as the
    schedule says; then the loop has returned, or the process has stopped,
    or it is still running. [db.Close()] is deferred in the frame of the
    function and runs when it returns or panics. *)
Definition run_loop (mode : TransportMode) : M unit := λ w,
  let s := exec mode (schedule E) sys_start in
  let w := add_logs (sys_logs s) w in
  match halted s, loop s with
  | Some PanicMain, _ => (Stop PanicMain, close_resource Db w)
  | Some e, _ => (Stop e, w)
  | None, LoopReturned => (Val tt, close_resource Db w)
  | None, _ => (Stop Running, w)
  end.

Definition runRingBuf : M unit :=
  act (log_Printf "Listening for events..");;
  match OpenFile E with
  | Some err => log_Fatalf (error_string err)
  | None => run_loop RingBuffer
  end.

Definition runPerf : M unit :=
  act (log_Printf "Listening for events..");;
  match OpenFile E with
  | Some err => log_Fatalf (error_string err)
  | None => run_loop PerfBuffer
  end.

(** The attachment of the two classifiers, the same in both branches of
    [main]. *)
Definition attach_both (iface : Link) (mode : TransportMode) : M unit :=
  act (note_load mode);;
  match loadObjects E with
  | Some err => log_Fatalf ("loading objects: " +:+ error_string err)
  | None =>
      defer_ (DeferClose Objs);;
      match LinkByIndex E (link_Index iface) with
      | Err err => log_Fatalf ("create net link failed: " +:+ error_string err)
      | Ok link =>
          r ← call (attachTC (nl_fault E) link (IngressClsFunc E)
                      "classifier/ingress" HANDLE_MIN_INGRESS);
          match r with
          | Err err => log_Fatalf ("attach tc ingress failed, " +:+ error_string err)
          | Ok infIngress =>
              defer_ (DeferFilterDel infIngress);;
              r ← call (attachTC (nl_fault E) link (EgressClsFunc E)
                          "classifier/egress" HANDLE_MIN_EGRESS);
              match r with
              | Err err => log_Fatalf ("attach tc egress failed, " +:+ error_string err)
              | Ok infEgress => defer_ (DeferFilterDel infEgress)
              end
          end
      end
  end.

(** The lines [main] logs once the kernel version is accepted. *)
Definition banner (iface : Link) (kernelVersion : Z) : list string :=
  ["Kernel version: " +:+ pretty kernelVersion;
   "  ____       _               ";
   " |  _ \ _ __(_)___ _ __ ___  ";
   " | |_) | '__| / __| '_ ` _ \ ";
   " |  __/| |  | \__ \ | | | | |";
   " |_|   |_|  |_|___/_| |_| |_|";
   "";
   "Version v0.0.1";
   "Attached TC program to iface " +:+ dquote +:+ link_Name iface +:+ dquote
     +:+ " (index " +:+ pretty (link_Index iface) +:+ ")";
   "Press Ctrl-C to exit and remove the program";
   "Successfully started! Please run " +:+ dquote
     +:+ "sudo cat /sys/kernel/debug/tracing/trace_pipe" +:+ dquote
     +:+ " to see output of the BPF programs"].

(** The branch of [main] taken when [isMaxKernelVer] holds. *)
Definition ringbuf_branch (iface : Link) : M unit :=
  attach_both iface RingBuffer;;
  match NewReader E with
  | Some err => log_Fatalf ("opening ringbuf reader: " +:+ error_string err)
  | None => runRingBuf
  end.

(** The [else] branch of [main]; the reader is closed by a deferred call as
    well. *)
Definition perf_branch (iface : Link) : M unit :=
  attach_both iface PerfBuffer;;
  match NewReader E with
  | Some err => log_Fatalf ("creating perf event reader: " +:+ error_string err)
  | None => defer_ (DeferClose Reader);; runPerf
  end.

Definition main_body : M unit :=
  if decide (String.length (InterfaceName E) = 0)%nat then
    log_Fatalf "Please specify a network interface"
  else
    match InterfaceByName E with
    | Err err =>
        log_Fatalf ("lookup network iface " +:+ InterfaceName E +:+ ": " +:+ error_string err)
    | Ok iface =>
        act note_kver_read;;
        match GetKernelVersion E with
        | Err _ => log_Fatalf "kernel version: NOT OK"
        | Ok kernelVersion =>
            if negb (isMinKernelVer kernelVersion) then
              log_Fatalf ("kernel version: NOT OK: minimal supported kernel "
                          +:+ "version is " +:+ pretty minKernelVer
                          +:+ "; kernel version that is running is: "
                          +:+ pretty kernelVersion)
            else
              act (add_logs (banner iface kernelVersion));;
              (if isMaxKernelVer kernelVersion
               then ringbuf_branch iface else perf_branch iface);;
              act (log_Printf "Received signal, exiting TC program..")
        end
    end.

Definition world_start : world :=
  {| tc_qdiscs := host_qdiscs E; tc_filters := host_filters E; nl_calls := [];
     logs := []; loaded := []; kver_reads := 0; deferred := []; closed := [] |}.

(** The process: when [main] returns, and while the main goroutine panics,
    its deferred calls run, last first; [os.Exit] and a panic of another
    goroutine end the process without them. *)
Definition main : exit * world :=
  match main_body world_start with
  | (Val _, w) => (Returned, run_deferred w)
  | (Stop PanicMain, w) => (Stopped PanicMain, run_deferred w)
  | (Stop e, w) => (Stopped e, w)
  end.

End Main.

(** The goroutine of [main] closes the queue before it closes the reader,
    in every run: a closed reader means a closed queue. *)
Definition close_order (s : sys) : Prop :=
  match coordinator s with
  | AwaitSignal | CloseQueue => rd_closed s = false
  | CloseReader => q_closed s = true ∧ rd_closed s = false
  | CoordinatorDone => q_closed s = true
  end.

(** Two worlds that differ only in the TC tables and the netlink calls. *)
Definition same_but_tc (w w' : world) : Prop :=
  logs w' = logs w ∧ loaded w' = loaded w ∧ kver_reads w' = kver_reads w
  ∧ deferred w' = deferred w ∧ closed w' = closed w.

(** *** Hosts and schedules to run the process on *)

Definition lo : Link := {| link_Index := 1; link_Name := "lo" |}.

(** A record as the probe submits it for a 200-byte frame at the ingress
    hook. *)
Definition sample_record : list byte :=
  Probe.wire_record
    (Probe.captured_event Probe.Ingress (Probe.skb_of (Probe.http_frame 200))
       Probe.idle_kernel).

Definition host (v : Z) (faults : nat → option error) (db : option error)
    (sched : list action) : env :=
  {| InterfaceName := "lo"; InterfaceByName := Ok lo; GetKernelVersion := Ok v;
     loadObjects := None; IngressClsFunc := 7; EgressClsFunc := 8;
     LinkByIndex := λ _, Ok lo; nl_fault := faults; NewReader := None; OpenFile := db;
     host_qdiscs := ∅; host_filters := ∅; schedule := sched |}.

Definition no_fault : nat → option error := λ _, None.

(** An orderly shutdown: a record is read, sent and consumed, and the
    signal arrives while the loop waits in [rd.Read()]. *)
Definition quiet_schedule : list action :=
  [ReadLoop (ReadRecord sample_record); ReadLoop (ReadError (ErrOther "timeout"));
   Consumer; Signal;
   Coordinator None; Coordinator None; Coordinator None;
   ReadLoop (ReadRecord sample_record)].

(** The signal arrives when the loop has read and decoded a record and has
    not sent it yet; the goroutine of [main] closes the queue before the
    loop goes on. *)
Definition race_schedule : list action :=
  [ReadLoop (ReadRecord sample_record); Signal;
   Coordinator None; Coordinator None;
   ReadLoop (ReadRecord sample_record)].

(** The fifth netlink call of the process, the deletion of the egress
    filter, fails. *)
Definition del_fault : nat → option error :=
  λ n, if decide (n = 4)%nat then Some (ErrOther "operation not permitted") else None.

End Prism.

(** ** Views of a run used by the further properties *)

Module Views.
Import Probe Prism.


(** What a run added to the trace. *)
Definition run_trace (k k' : kstate) : list op := drop (length (trace k)) (trace k').

(** The trace of a run that captures nothing: it ends at the filters, at the
    lookup in the per-CPU array or at the reservation. *)
Definition skip_trace (V : vmlinux) (skb : sk_buff) (k : kstate) : list op :=
  if (ETH_HLEN V + IP_HLEN V + TCP_HLEN V <=? frame_length skb k)
     && (ethertype V (pulled skb k) =? ETH_P_IP)
     && (ip_protocol V (pulled skb k) =? IPPROTO_TCP V)
     && (HTTP_DATA_MIN_SIZE <? frame_length skb k mod 2 ^ 32)
  then
    if bool_decide (data_buffer_heap k = []) then [SkbPullData; MapLookup NULL]
    else [SkbPullData; MapLookup (HeapValue 0); RingbufReserve NULL]
  else [SkbPullData].

(** The hooks run on the packets of one CPU, one after the other; each
    packet comes with the direction of the hook it meets. *)
Definition run_hooks (V : vmlinux) (pkts : list (tc_type * sk_buff)) (k : kstate) : kstate :=
  foldl (λ k p, (capture_packets V p.2 p.1 k).2) k pkts.

(** A record as the probe leaves it: committed, with its 4000 payload
    bytes, a length of at most 4000 and a direction that is 0 or 1. *)
Definition sound_record (r : rb_status * http_data_event) : Prop :=
  r.1 = Committed ∧ length (data r.2) = 4000%nat
  ∧ 0 ≤ data_len r.2 ≤ 4000 ∧ (type r.2 = 0 ∨ type r.2 = 1).

(** [task.Data[:task.DataLen]], the slice the consumer hands to [parseHttp]. *)
Definition payload_slice (task : httpDataEvent) : list byte :=
  take (Z.to_nat (ev_DataLen task)) (ev_Data task).

(** The event [binary.Read] builds from the fields of a record of the
    probe. *)
Definition decoded (e : http_data_event) : httpDataEvent :=
  {| ev_Type := type e; ev_Data := data e; ev_DataLen := data_len e |}.

(** The slices of the records a schedule offers to the read loop, in the
    order of the schedule; a record that does not decode has none. *)
Definition offered_slices (sched : list action) : list (list byte) :=
  omap (λ a, match a with
             | ReadLoop (ReadRecord raw) =>
                 match binary_Read raw with
                 | Ok event => Some (payload_slice event)
                 | Err _ => None
                 end
             | _ => None
             end) sched.

(** What the loop holds between its read and its send. *)
Definition in_flight (s : sys) : list httpDataEvent :=
  match loop s with AtSend event => [event] | _ => [] end.

(** The loop waits in [rd.Read()] with the reader and the queue open, the
    queue empty and the consumer waiting for a task. *)
Definition waiting (s : sys) : Prop :=
  finished s = false ∧ loop s = AtRead ∧ rd_closed s = false
  ∧ q_closed s = false ∧ q_buf s = [] ∧ consumer_done s = false.

Definition is_filter_del (c : nl_op * option error) : bool :=
  match c.1 with NlFilterDel _ => true | _ => false end.

(** No [netlink.FilterDel] among the netlink calls made so far, and the
    computations of the main goroutine that keep it so. *)
Definition no_del (w : world) : Prop :=
  Forall (λ c, is_filter_del c = false) (nl_calls w).

Definition quiet {A} (m : M A) : Prop := ∀ w, no_del w → no_del (m w).2.

(** The goroutine of [main] still waits for the signal, and nothing is
    closed. *)
Definition idle_coordinator (s : sys) : Prop :=
  stopper s = false ∧ coordinator s = AwaitSignal ∧ q_closed s = false
  ∧ rd_closed s = false ∧ (halted s = None ∨ halted s = Some PanicOther).

(** The slices on their way to [parseHttp], oldest first: those handed
    over, those of the queued events, and that of the event the loop is
    about to send. *)
Definition pipeline (s : sys) : list (list byte) :=
  parsed s ++ (payload_slice <$> q_buf s) ++ (payload_slice <$> in_flight s).

(** The signal arrives between the read of a record and its send. *)
Definition late_signal : list action :=
  [ReadLoop (ReadRecord sample_record); Signal; Coordinator None; Coordinator None;
   ReadLoop (ReadError (ErrOther "timeout"))].

End Views.

(** ** Properties of the capture probe *)

Module ProbeFacts.
Import Probe.

Lemma byte_val_range b : 0 <= byte_val b < 256.
Proof.
  unfold byte_val. pose proof (Byte.to_N_bounded b) as Hb. lia.
Qed.

Lemma pull_data_eq skb k :
  bpf_skb_pull_data skb (skb_len skb) k = (pulled skb k, log_op SkbPullData k).
Proof.
  unfold pulled, bpf_skb_pull_data. simpl.
  destruct ((skb_len skb <=? _) || negb (pull_ok k)); reflexivity.
Qed.

Lemma pulled_data skb k : skb_data (pulled skb k) = skb_data skb.
Proof.
  unfold pulled, bpf_skb_pull_data. simpl.
  destruct ((skb_len skb <=? _) || negb (pull_ok k)); reflexivity.
Qed.

Lemma frame_length_eq skb k : frame_length skb k = Z.of_nat (length (frame skb k)).
Proof. unfold frame_length, frame, skb_data_end. lia. Qed.

(** Linearising never makes the packet longer than [skb->len]. *)
Lemma frame_length_le skb k : frame_length skb k <= skb_len skb.
Proof.
  rewrite frame_length_eq. unfold frame, pulled, bpf_skb_pull_data, skb_len. simpl.
  destruct ((_ <=? _) || negb (pull_ok k)); simpl.
  - lia.
  - rewrite length_app, length_take. lia.
Qed.

(** When linearising succeeds, the frame is the whole packet. *)
Lemma frame_whole skb k :
  pull_ok k = true → frame skb k = skb_linear skb ++ skb_frags skb.
Proof.
  intros Hok. unfold frame, pulled, bpf_skb_pull_data, skb_len. simpl.
  rewrite Hok. simpl. rewrite orb_false_r.
  destruct (Z.leb_spec (Z.of_nat (length (skb_linear skb) + length (skb_frags skb)))
              (Z.of_nat (length (skb_linear skb)))) as [Hle|Hlt]; simpl.
  - assert (length (skb_frags skb) = 0%nat) as Hnil by lia.
    destruct (skb_frags skb); [by rewrite app_nil_r | discriminate].
  - rewrite take_ge; [done | lia].
Qed.

Lemma load_byte_frame skb (j : nat) b :
  skb_linear skb !! j = Some b → load_byte skb (skb_data skb + Z.of_nat j) = b.
Proof.
  intros Hj. unfold load_byte.
  destruct (Z.ltb_spec (skb_data skb + Z.of_nat j) (skb_data skb)); [lia|].
  replace (Z.to_nat (skb_data skb + Z.of_nat j - skb_data skb)) with j by lia.
  by rewrite Hj.
Qed.

Lemma alter_last {A} (f : A → A) (l : list A) (x : A) :
  alter f (length l) (l ++ [x]) = l ++ [f x].
Proof.
  replace (length l) with (length l + 0)%nat by lia.
  by rewrite alter_app_r.
Qed.

(** The copy loop on a record at the end of the ring: only the payload of
    that record and the trace change. *)
Lemma copy_loop_ring n : ∀ skb evs st e h u s b t (j : nat),
  copy_loop n skb (skb_data_end skb) (RingRecord (length evs))
    (skb_data skb + Z.of_nat j) (Z.of_nat j)
    {| data_buffer_heap := h; http_events := evs ++ [(st, e)];
       rb_used := u; rb_stale := s; pull_ok := b; trace := t |}
  = {| data_buffer_heap := h;
       http_events := evs ++ [(st, {| type := type e;
                                      data := copy_bytes n (skb_linear skb) j (data e);
                                      data_len := data_len e |})];
       rb_used := u; rb_stale := s; pull_ok := b;
       trace := t ++ copy_trace n (skb_linear skb) j (RingRecord (length evs)) |}.
Proof.
  induction n as [|n IH]; intros skb evs st e h u s b t j; simpl.
  - rewrite app_nil_r. by destruct e.
  - unfold skb_data_end.
    destruct (Z.gtb_spec (skb_data skb + Z.of_nat j + 1)
                (skb_data skb + Z.of_nat (length (skb_linear skb)))) as [Hgt|Hle].
    + rewrite (lookup_ge_None_2 (skb_linear skb) j) by lia.
      rewrite app_nil_r. by destruct e.
    + destruct (lookup_lt_is_Some_2 (skb_linear skb) j) as [c Hc]; [lia|].
      rewrite Hc, (load_byte_frame _ _ _ Hc).
      unfold store_data, store, set_events, log_op; simpl.
      rewrite alter_last. simpl.
      replace (skb_data skb + Z.of_nat j + 1) with (skb_data skb + Z.of_nat (S j)) by lia.
      replace (Z.of_nat j + 1) with (Z.of_nat (S j)) by lia.
      fold (skb_data_end skb). rewrite IH. simpl.
      rewrite Nat2Z.id, <- app_assoc. reflexivity.
Qed.

Lemma copy_loop_ring_start n skb evs st e h u s b t :
  copy_loop n skb (skb_data_end skb) (RingRecord (length evs)) (skb_data skb) 0
    {| data_buffer_heap := h; http_events := evs ++ [(st, e)];
       rb_used := u; rb_stale := s; pull_ok := b; trace := t |}
  = {| data_buffer_heap := h;
       http_events := evs ++ [(st, {| type := type e;
                                      data := copy_bytes n (skb_linear skb) 0 (data e);
                                      data_len := data_len e |})];
       rb_used := u; rb_stale := s; pull_ok := b;
       trace := t ++ copy_trace n (skb_linear skb) 0 (RingRecord (length evs)) |}.
Proof.
  pose proof (copy_loop_ring n skb evs st e h u s b t 0) as H.
  change (Z.of_nat 0) with 0 in H. by rewrite Z.add_0_r in H.
Qed.

Lemma ethertype_test V skb :
  (load_u16 skb (skb_data skb + h_proto_off V) =? bpf_htons ETH_P_IP)
  = (ethertype V skb =? ETH_P_IP).
Proof.
  unfold load_u16, ethertype, load_u8.
  replace (bpf_htons ETH_P_IP) with 8 by reflexivity.
  pose proof (byte_val_range (load_byte skb (skb_data skb + h_proto_off V))).
  pose proof (byte_val_range (load_byte skb (skb_data skb + h_proto_off V + 1))).
  unfold ETH_P_IP.
  destruct (Z.eqb_spec (byte_val (load_byte skb (skb_data skb + h_proto_off V))
              + 256 * byte_val (load_byte skb (skb_data skb + h_proto_off V + 1))) 8);
  destruct (Z.eqb_spec (256 * byte_val (load_byte skb (skb_data skb + h_proto_off V))
              + byte_val (load_byte skb (skb_data skb + h_proto_off V + 1))) 2048);
  try reflexivity; lia.
Qed.

(** A run that captures: one committed record is appended to the ring, and
    nothing else changes but the trace and the space in use. *)
Lemma capture_packets_captures V skb ty k :
  captures V skb k = true →
  capture_packets V skb ty k =
    (TC_ACT_OK,
     {| data_buffer_heap := data_buffer_heap k;
        http_events := http_events k ++ [(Committed, captured_event ty skb k)];
        rb_used := rb_used k + 4016; rb_stale := rb_stale k; pull_ok := pull_ok k;
        trace := trace k ++ capture_trace skb k |}).
Proof.
  unfold captures. rewrite !andb_true_iff, negb_true_iff, bool_decide_eq_false.
  intros [[[[[Hhdr Heth] Hip] Hmin] Hheap] Hroom].
  unfold capture_packets. rewrite pull_data_eq.
  fold (frame_length skb k) in *.
  assert ((skb_data (pulled skb k) + ETH_HLEN V + IP_HLEN V + TCP_HLEN V
           >? skb_data_end (pulled skb k)) = false) as ->.
  { unfold frame_length in Hhdr. lia. }
  rewrite ethertype_test, Heth. fold (ip_protocol V (pulled skb k)). rewrite Hip.
  cbn [negb].
  fold (frame_length skb k).
  pose proof (Z.mod_pos_bound (frame_length skb k) (2 ^ 32) eq_refl) as Hlen.
  assert ((frame_length skb k mod 2 ^ 32 <? 0) = false) as -> by lia.
  assert ((frame_length skb k mod 2 ^ 32 <=? HTTP_DATA_MIN_SIZE) = false) as ->.
  { unfold HTTP_DATA_MIN_SIZE in *. lia. }
  unfold create_http_data_event, bpf_map_lookup_elem.
  assert ((0 <=? 0) && (0 <? Z.of_nat (length (data_buffer_heap (log_op SkbPullData k))))
          = true) as ->.
  { cbn [log_op data_buffer_heap]. destruct (data_buffer_heap k); [done|].
    apply andb_true_intro. split; [reflexivity|]. apply Z.ltb_lt. cbn [length]. lia. }
  change (Z.to_nat 0) with 0%nat. cbn [is_null].
  unfold bpf_ringbuf_reserve.
  replace ((sizeof_http_data_event + BPF_RINGBUF_HDR_SZ + 7) / 8 * 8) with 4016
    by reflexivity.
  assert ((rb_used (log_op (MapLookup (HeapValue 0)) (log_op SkbPullData k)) + 4016
           >? rb_max_entries) = false) as ->.
  { cbn [log_op rb_used]. lia. }
  cbn [is_null].
  remember (Z.to_nat MAX_DATA_SIZE) as n eqn:Hn.
  unfold store_type, store_data_len, store, set_events, set_used, log_op.
  cbn [http_events data_buffer_heap rb_used rb_stale pull_ok trace].
  rewrite !alter_last. cbn [fst snd type data data_len].
  rewrite copy_loop_ring_start.
  unfold bpf_ringbuf_submit, set_events, log_op.
  cbn [http_events data_buffer_heap rb_used rb_stale pull_ok trace].
  rewrite alter_last. cbn [fst snd type data data_len].
  unfold captured_event, capture_trace, frame. rewrite <- Hn.
  f_equal. f_equal. rewrite <- !app_assoc. reflexivity.
Qed.

(** A run that does not capture: the packet passes, and nothing changes but
    the trace, which holds no reservation, no submit and no store. *)
Lemma capture_packets_skips V skb ty k :
  captures V skb k = false →
  ∃ t, capture_packets V skb ty k =
         (TC_ACT_OK,
          {| data_buffer_heap := data_buffer_heap k; http_events := http_events k;
             rb_used := rb_used k; rb_stale := rb_stale k; pull_ok := pull_ok k;
             trace := trace k ++ t |})
       ∧ (t = [SkbPullData] ∨ t = [SkbPullData; MapLookup NULL]
          ∨ t = [SkbPullData; MapLookup (HeapValue 0); RingbufReserve NULL]).
Proof.
  intros Hno. unfold capture_packets. rewrite pull_data_eq.
  fold (frame_length skb k). rewrite ethertype_test. fold (ip_protocol V (pulled skb k)).
  pose proof (Z.mod_pos_bound (frame_length skb k) (2 ^ 32) eq_refl) as Hlen.
  destruct (_ >? _) eqn:Hhdr; [by exists [SkbPullData]; split; [|left]|].
  destruct (ethertype V (pulled skb k) =? ETH_P_IP) eqn:Heth;
    [|by exists [SkbPullData]; split; [|left]].
  destruct (ip_protocol V (pulled skb k) =? IPPROTO_TCP V) eqn:Hip;
    [|by exists [SkbPullData]; split; [|left]].
  cbn [negb].
  destruct (_ <? 0) eqn:Hneg; [by exists [SkbPullData]; split; [|left]|].
  destruct (_ <=? HTTP_DATA_MIN_SIZE) eqn:Hmin; [by exists [SkbPullData]; split; [|left]|].
  unfold create_http_data_event, bpf_map_lookup_elem.
  cbn [log_op data_buffer_heap].
  destruct (data_buffer_heap k) as [|v heap] eqn:Hheap.
  { exists [SkbPullData; MapLookup NULL]. split; [|by right; left].
    cbn. unfold log_op; cbn. by rewrite Hheap, <- app_assoc. }
  assert ((0 <=? 0) && (0 <? Z.of_nat (length (v :: heap))) = true) as ->.
  { apply andb_true_intro. split; [reflexivity|]. apply Z.ltb_lt. cbn [length]. lia. }
  change (Z.to_nat 0) with 0%nat. cbn [is_null].
  unfold bpf_ringbuf_reserve.
  replace ((sizeof_http_data_event + BPF_RINGBUF_HDR_SZ + 7) / 8 * 8) with 4016
    by reflexivity.
  cbn [log_op rb_used].
  destruct (rb_used k + 4016 >? rb_max_entries) eqn:Hroom.
  { exists [SkbPullData; MapLookup (HeapValue 0); RingbufReserve NULL].
    split; [|by right; right].
    cbn [is_null]. unfold log_op; cbn. by rewrite Hheap, <- !app_assoc. }
  exfalso. revert Hno. unfold captures. fold (frame_length skb k).
  rewrite Heth, Hip, Hheap.
  assert ((ETH_HLEN V + IP_HLEN V + TCP_HLEN V <=? frame_length skb k) = true) as ->.
  { unfold frame_length. lia. }
  assert ((HTTP_DATA_MIN_SIZE <? frame_length skb k mod 2 ^ 32) = true) as -> by lia.
  assert ((rb_used k + 4016 <=? rb_max_entries) = true) as -> by lia.
  by rewrite bool_decide_eq_false_2.
Qed.

(** *** The copy loop as a function of the frame *)

Lemma copy_bytes_length n : ∀ fr j d, length (copy_bytes n fr j d) = length d.
Proof.
  induction n as [|n IH]; intros fr j d; simpl; [done|].
  destruct (fr !! j); [|done]. by rewrite IH, length_insert.
Qed.

Lemma copy_bytes_before n : ∀ fr j d (i : nat),
  (i < j)%nat → copy_bytes n fr j d !! i = d !! i.
Proof.
  induction n as [|n IH]; intros fr j d i Hi; simpl; [done|].
  destruct (fr !! j); [|done].
  rewrite IH by lia. apply list_lookup_insert_ne. lia.
Qed.

Lemma copy_bytes_copied n : ∀ fr j d (i : nat),
  (j ≤ i < j + n)%nat → (i < length fr)%nat → (i < length d)%nat →
  copy_bytes n fr j d !! i = fr !! i.
Proof.
  induction n as [|n IH]; intros fr j d i Hi Hfr Hd; simpl; [lia|].
  destruct (lookup_lt_is_Some_2 fr j) as [b Hb]; [lia|]. rewrite Hb.
  destruct (decide (i = j)) as [->|Hne].
  - rewrite copy_bytes_before by lia.
    rewrite Hb. by apply list_lookup_insert_eq.
  - apply IH; [lia | done | by rewrite length_insert].
Qed.

(** With a destination of [n] bytes, the first [min (length fr) n] bytes of
    the result are those of the frame. *)
Lemma copy_bytes_prefix n fr d (m : nat) :
  length d = n → (m ≤ length fr)%nat → (m ≤ n)%nat →
  take m (copy_bytes n fr 0 d) = take m fr.
Proof.
  intros Hd Hfr Hn. apply list_eq. intros i.
  destruct (decide (i < m)%nat) as [Hi|Hi].
  - rewrite !lookup_take_lt by done. apply copy_bytes_copied; lia.
  - rewrite !lookup_take_ge by lia. done.
Qed.

Lemma copy_trace_omap {B} (f : op → option B) n : ∀ fr j p,
  (∀ q pos, f (StoreData q pos) = None) → omap f (copy_trace n fr j p) = [].
Proof.
  induction n as [|n IH]; intros fr j p Hf; simpl; [done|].
  destruct (fr !! j); [|done]. simpl. rewrite Hf. by apply IH.
Qed.

Lemma copy_trace_stores n : ∀ fr j p,
  Forall (λ o, store_target o = Some p) (copy_trace n fr j p).
Proof.
  induction n as [|n IH]; intros fr j p; simpl; [constructor|].
  destruct (fr !! j); constructor; [done | apply IH].
Qed.

Lemma capture_trace_reserves skb k :
  reserves (capture_trace skb k) = [RingRecord (length (http_events k))].
Proof.
  unfold capture_trace, reserves. rewrite !omap_app.
  rewrite copy_trace_omap by done. reflexivity.
Qed.

Lemma capture_trace_submits skb k :
  submits (capture_trace skb k) = [RingRecord (length (http_events k))].
Proof.
  unfold capture_trace, submits. rewrite !omap_app.
  rewrite copy_trace_omap by done. reflexivity.
Qed.

Lemma capture_trace_discards skb k : discards (capture_trace skb k) = [].
Proof.
  unfold capture_trace, discards. rewrite !omap_app.
  rewrite copy_trace_omap by done. reflexivity.
Qed.

(** *** The probe on concrete frames *)

(** A 200-byte HTTP frame at the ingress hook: one committed event, with
    direction Ingress and length 200, whose payload is the frame. *)
Example ingress_http_200 :
  let r := ingress_cls_func linux_headers (skb_of (http_frame 200)) idle_kernel in
  r.1 = TC_ACT_OK
  ∧ map (λ e, (e.1, type e.2, data_len e.2, take 200 (data e.2))) (http_events r.2)
    = [(Committed, 1, 200, http_frame 200)]
  ∧ (take 14 ∘ drop 54 ∘ data ∘ snd <$> http_events r.2)
    = [String.list_byte_of_string "GET / HTTP/1.1"].
Proof. vm_compute. done. Qed.

(** A 50-byte frame at the egress hook, and an ARP frame at the ingress
    hook: no event. *)
Example egress_short_frame :
  http_events (egress_cls_func linux_headers (skb_of (http_frame 50)) idle_kernel).2 = [].
Proof. vm_compute. done. Qed.

Example ingress_arp_frame :
  http_events (ingress_cls_func linux_headers (skb_of arp_frame) idle_kernel).2 = [].
Proof. vm_compute. done. Qed.

(** The threshold is strict: 91 bytes are dropped, 92 are captured; a frame
    of 5000 bytes is cut to 4000. *)
Example frames_at_the_threshold :
  http_events (egress_cls_func linux_headers (skb_of (http_frame 91)) idle_kernel).2 = []
  ∧ (data_len ∘ snd <$> http_events
       (egress_cls_func linux_headers (skb_of (http_frame 92)) idle_kernel).2) = [92]
  ∧ (data_len ∘ snd <$> http_events
       (egress_cls_func linux_headers (skb_of (http_frame 5000)) idle_kernel).2) = [4000].
Proof. vm_compute. done. Qed.

(** When the packet cannot be linearised the probe sees its linear part
    only: the 64 linear bytes of a 200-byte packet are too short. *)
Example not_linearised :
  http_events (egress_cls_func linux_headers (skb_of (http_frame 200))
                 {| data_buffer_heap := data_buffer_heap idle_kernel;
                    http_events := []; rb_used := 0; rb_stale := rb_stale idle_kernel;
                    pull_ok := false; trace := [] |}).2 = [].
Proof. vm_compute. done. Qed.

(** *** The claims about the probe *)

(** C2. For every frame that produces an event, the event's length is
    [min(frame_length, 4000)], the first [length] bytes of its payload are
    the first [length] bytes of the frame, and its direction is that of the
    hook that fired: Egress, encoded 0, for the egress classifier and Ingress,
    encoded 1, for the ingress classifier. The packet length fits 32 bits, as
    [skb->len] does. *)
Theorem event_matches_frame V skb k :
  skb_len skb < 2 ^ 32 →
  hook_reports (egress_cls_func V) Egress 0 skb k
  ∧ hook_reports (ingress_cls_func V) Ingress 1 skb k.
Proof.
  intros Hlen.
  assert (∀ d code, code = tc_type_val d →
            hook_reports (λ s, capture_packets V s d) d code skb k) as Hd.
  { intros d code ->. unfold hook_reports. cbn zeta.
    destruct (captures V skb k) eqn:Hc.
    - right. rewrite (capture_packets_captures _ _ _ _ Hc). cbn [snd http_events].
      exists (captured_event d skb k). split; [done|].
      pose proof (frame_length_le skb k) as Hle.
      pose proof (frame_length_eq skb k) as Hfl.
      assert (frame_length skb k mod 2 ^ 32 = frame_length skb k) as Hmod.
      { apply Z.mod_small. lia. }
      assert (data_len (captured_event d skb k)
              = Z.min (frame_length skb k) MAX_DATA_SIZE) as Hdl.
      { unfold captured_event. cbn [data_len]. rewrite Hmod.
        destruct (Z.ltb_spec (frame_length skb k) MAX_DATA_SIZE); lia. }
      split; [done|]. split; [|split; [done|reflexivity]].
      rewrite Hdl. unfold captured_event. cbn [data].
      apply copy_bytes_prefix.
      + apply length_resize.
      + lia.
      + unfold MAX_DATA_SIZE. lia.
    - left. destruct (capture_packets_skips V skb d k Hc) as (t & -> & _). done. }
  split; [apply (Hd Egress) | apply (Hd Ingress)]; reflexivity.
Qed.

Lemma event_matches_frame_witness :
  hook_reports (egress_cls_func linux_headers) Egress 0
    (skb_of (http_frame 200)) idle_kernel
  ∧ hook_reports (ingress_cls_func linux_headers) Ingress 1
      (skb_of (http_frame 200)) idle_kernel.
Proof.
  apply (event_matches_frame linux_headers (skb_of (http_frame 200)) idle_kernel).
  vm_compute. reflexivity.
Defined.

(** The filters the code tests imply the four filters of the specification:
    the 32-bit [len] is never more than the frame length. *)
Lemma captures_passes V skb k : captures V skb k = true → passes_filters V skb k = true.
Proof.
  unfold captures, passes_filters. rewrite !andb_true_iff.
  intros [[[[[Hhdr Heth] Hip] Hmin] _] _]. repeat split; try done.
  pose proof (frame_length_eq skb k).
  pose proof (Z.mod_le (frame_length skb k) (2 ^ 32)). lia.
Qed.

(** C3. No event is produced for a frame unless it passes every filter: a
    frame shorter than the Ethernet + IPv4 + TCP headers, or whose Ethertype
    is not IPv4, or whose IP protocol is not TCP, or of at most 91 bytes, is
    passed through and leaves the ring buffer as it was. *)
Theorem no_event_unless_filters V skb ty k :
  frame_length skb k < ETH_HLEN V + IP_HLEN V + TCP_HLEN V
  ∨ ethertype V (pulled skb k) ≠ ETH_P_IP
  ∨ ip_protocol V (pulled skb k) ≠ IPPROTO_TCP V
  ∨ frame_length skb k ≤ HTTP_DATA_MIN_SIZE →
  (capture_packets V skb ty k).1 = TC_ACT_OK
  ∧ http_events (capture_packets V skb ty k).2 = http_events k
  ∧ rb_used (capture_packets V skb ty k).2 = rb_used k
  ∧ reserves (drop (length (trace k)) (trace (capture_packets V skb ty k).2)) = [].
Proof.
  intros Hfail.
  assert (captures V skb k = false) as Hc.
  { destruct (captures V skb k) eqn:Hc; [|done].
    apply captures_passes in Hc. revert Hc. unfold passes_filters.
    rewrite !andb_true_iff. intros [[[Hhdr Heth] Hip] Hmin].
    unfold HTTP_DATA_MIN_SIZE in *.
    destruct Hfail as [?|[?|[?|?]]]; lia. }
  destruct (capture_packets_skips V skb ty k Hc) as (t & -> & Ht).
  cbn [fst snd http_events rb_used trace]. repeat split.
  rewrite drop_app_length. by destruct Ht as [->|[->| ->]].
Qed.

Lemma no_event_unless_filters_witness :
  http_events (capture_packets linux_headers (skb_of (http_frame 50)) Egress idle_kernel).2
  = [].
Proof.
  apply (no_event_unless_filters linux_headers (skb_of (http_frame 50)) Egress idle_kernel).
  left. vm_compute. reflexivity.
Defined.

(** C4. The probe returns the pass-through code TC_ACT_OK, which is 0, on
    every path: whatever the packet, the direction and the kernel state, and
    so never the shot, stolen or redirect codes. *)
Theorem always_pass_through V skb ty k :
  (capture_packets V skb ty k).1 = TC_ACT_OK
  ∧ (egress_cls_func V skb k).1 = 0
  ∧ (ingress_cls_func V skb k).1 = 0
  ∧ (capture_packets V skb ty k).1 ∉ [TC_ACT_SHOT; TC_ACT_STOLEN; TC_ACT_REDIRECT].
Proof.
  assert (∀ d, (capture_packets V skb d k).1 = TC_ACT_OK) as Hret.
  { intros d. destruct (captures V skb k) eqn:Hc.
    - by rewrite (capture_packets_captures _ _ _ _ Hc).
    - by destruct (capture_packets_skips V skb d k Hc) as (t & -> & _). }
  repeat split; try apply Hret.
  rewrite Hret. unfold TC_ACT_OK, TC_ACT_SHOT, TC_ACT_STOLEN, TC_ACT_REDIRECT.
  rewrite !elem_of_cons, elem_of_nil. lia.
Qed.

(** C9. The value of the per-CPU scratch map obtained at the start of a
    capture is never written: the map is left as it was, and every store to
    an event field and the submit go to the record reserved in the ring
    buffer during this run. *)
Theorem scratch_never_written V skb ty k :
  ∃ t, trace (capture_packets V skb ty k).2 = trace k ++ t
     ∧ data_buffer_heap (capture_packets V skb ty k).2 = data_buffer_heap k
     ∧ Forall (λ o, ∀ p, store_target o = Some p ∨ o = RingbufSubmit p →
                      reserves t = [p] ∧ ∃ i, p = RingRecord i) t.
Proof.
  destruct (captures V skb k) eqn:Hc.
  - rewrite (capture_packets_captures _ _ _ _ Hc). cbn [snd trace data_buffer_heap].
    exists (capture_trace skb k). split; [done|]. split; [done|].
    rewrite capture_trace_reserves. unfold capture_trace.
    repeat first [ apply Forall_cons; split | apply Forall_app; split ];
      try (intros p [Hp|Hp]; simplify_eq/=; eauto).
    + eapply Forall_impl; [apply copy_trace_stores|]. cbn beta.
      intros o Ho p [Hp|Hp].
      * rewrite Ho in Hp. simplify_eq. eauto.
      * subst o. discriminate.
    + apply Forall_nil. done.
  - destruct (capture_packets_skips V skb ty k Hc) as (t & -> & Ht).
    cbn [snd trace data_buffer_heap]. exists t. split; [done|]. split; [done|].
    destruct Ht as [->|[->| ->]];
      repeat (apply Forall_cons; split); try apply Forall_nil; try done;
      intros p [Hp|Hp]; discriminate.
Qed.

(** C10. Whenever the ring-buffer reservation succeeds the probe submits that
    record exactly once before it returns: the submits of a run are its
    reservations, there is at most one, none is discarded, and the reserved
    record is committed when the probe returns. *)
Theorem reservation_submitted_once V skb ty k :
  ∃ t, trace (capture_packets V skb ty k).2 = trace k ++ t
     ∧ submits t = reserves t
     ∧ discards t = []
     ∧ (length (reserves t) ≤ 1)%nat
     ∧ ∀ i, RingRecord i ∈ reserves t →
            ∃ ev, http_events (capture_packets V skb ty k).2 !! i = Some (Committed, ev).
Proof.
  destruct (captures V skb k) eqn:Hc.
  - rewrite (capture_packets_captures _ _ _ _ Hc). cbn [snd trace http_events].
    exists (capture_trace skb k).
    rewrite capture_trace_reserves, capture_trace_submits, capture_trace_discards.
    repeat split; [simpl; lia|].
    intros i Hi. apply list_elem_of_singleton in Hi. simplify_eq.
    exists (captured_event ty skb k). by apply list_lookup_middle.
  - destruct (capture_packets_skips V skb ty k Hc) as (t & -> & Ht).
    cbn [snd trace http_events]. exists t. split; [done|].
    destruct Ht as [->|[->| ->]]; cbn; repeat split; try lia;
      intros i Hi; by apply elem_of_nil in Hi.
Qed.

End ProbeFacts.

(** ** Properties of the userspace side *)

Module PrismFacts.
Import Prism.

(** *** The process on concrete hosts *)

(** The record of the probe decodes to the event it was built from. *)
Example decode_sample_record :
  match binary_Read sample_record with
  | Ok event =>
      ev_Type event = 1 ∧ ev_DataLen event = 200
      ∧ take 200 (ev_Data event) = Probe.http_frame 200
  | Err _ => False
  end.
Proof. vm_compute. done. Qed.

(** An orderly shutdown on a kernel with the ring buffer: [main] returns,
    both filters are gone and the consumer was handed the frame. *)
Example orderly_shutdown :
  let r := main 500 580 (host 600 no_fault None quiet_schedule) in
  r.1 = Returned
  ∧ tc_filters r.2 = ∅
  ∧ loaded r.2 = [RingBuffer]
  ∧ closed r.2 = [Db; Objs]
  ∧ parsed (exec RingBuffer quiet_schedule sys_start) = [Probe.http_frame 200].
Proof. vm_compute. done. Qed.

(** *** Attachment *)

(** A successful [attachTC]: the filter it returns, and the two tables
    after it. *)
Lemma attachTC_ok fault link fd name parent w f w' :
  attachTC fault link fd name parent w = (Ok f, w') →
  f = {| f_LinkIndex := link_Index link; f_Parent := parent; f_Handle := 1;
         f_Protocol := ETH_P_ALL; f_Priority := 1; f_Fd := fd;
         f_Name := name +:+ "-" +:+ link_Name link; f_DirectAction := true |}
  ∧ (∃ q, tc_qdiscs w' = <[(link_Index link, HANDLE_CLSACT) := q]> (tc_qdiscs w))
  ∧ tc_filters w' = <[(link_Index link, parent, 1, 1) := f]> (tc_filters w).
Proof.
  unfold attachTC, replaceQdisc, QdiscReplace, FilterReplace. cbn.
  destruct (fault (length (nl_calls w))); [discriminate|]. cbn.
  destruct (fault _); [discriminate|].
  rewrite lookup_insert_eq. intros [= <- <-]. cbn. eauto.
Qed.

(** C7. Attaching twice in succession to the same interface and direction
    leaves exactly one clsact qdisc on the interface and exactly one filter
    for that direction: the second call replaces what the first installed,
    and the two tables are after it what they were before it. The direction
    holds no filter under another priority or handle beforehand. *)
Theorem attach_twice_one_filter fault link fd name parent w f1 w1 f2 w2 :
  attachTC fault link fd name parent w = (Ok f1, w1) →
  attachTC fault link fd name parent w1 = (Ok f2, w2) →
  (∀ k f, tc_filters w !! k = Some f → k.1.1.1 = link_Index link → k.1.1.2 = parent →
          k = (link_Index link, parent, 1, 1)) →
  size (link_qdiscs (link_Index link) w2) = 1%nat
  ∧ size (direction_filters (link_Index link) parent w2) = 1%nat
  ∧ tc_qdiscs w2 = tc_qdiscs w1
  ∧ tc_filters w2 = tc_filters w1
  ∧ f2 = f1.
Proof.
  intros H1 H2 Hfree.
  destruct (attachTC_ok _ _ _ _ _ _ _ _ H1) as (Hf1 & [q1 Hq1] & Hfs1).
  destruct (attachTC_ok _ _ _ _ _ _ _ _ H2) as (Hf2 & [q2 Hq2] & Hfs2).
  assert (q2 = q1) as ->.
  { revert H1 H2. unfold attachTC, replaceQdisc, QdiscReplace, FilterReplace. cbn.
    destruct (fault (length (nl_calls w))); [discriminate|]. cbn.
    destruct (fault _); [discriminate|]. rewrite lookup_insert_eq.
    intros [= <- <-]. cbn.
    destruct (fault _); [discriminate|]. cbn.
    destruct (fault _); [discriminate|]. rewrite lookup_insert_eq.
    intros [= _ <-]. cbn in Hq1, Hq2.
    pose proof (f_equal (λ m, m !! (link_Index link, HANDLE_CLSACT)) Hq1) as E1.
    pose proof (f_equal (λ m, m !! (link_Index link, HANDLE_CLSACT)) Hq2) as E2.
    cbn in E1, E2. rewrite !lookup_insert_eq in E1, E2. congruence. }
  assert (f2 = f1) as -> by congruence.
  assert (tc_qdiscs w2 = tc_qdiscs w1) as Hqs by (by rewrite Hq2, Hq1, insert_insert_eq).
  assert (tc_filters w2 = tc_filters w1) as Hfs by (by rewrite Hfs2, Hfs1, insert_insert_eq).
  split; [|split; [|done]].
  - unfold link_qdiscs. rewrite Hqs, Hq1.
    rewrite <- (map_size_singleton (link_Index link, HANDLE_CLSACT) q1). f_equal.
    apply map_eq. intros k. destruct (decide (k = (link_Index link, HANDLE_CLSACT))) as [->|Hk].
    + rewrite lookup_singleton_eq. apply map_lookup_filter_Some.
      split; [apply lookup_insert_eq | done].
    + rewrite lookup_singleton_ne by done. apply map_lookup_filter_None. right.
      intros q _ [Hi Hp]. destruct k as [i p]. cbn in Hi, Hp. congruence.
  - unfold direction_filters. rewrite Hfs, Hfs1.
    rewrite <- (map_size_singleton (link_Index link, parent, 1, 1) f1). f_equal.
    apply map_eq. intros k. destruct (decide (k = (link_Index link, parent, 1, 1))) as [->|Hk].
    + rewrite lookup_singleton_eq. apply map_lookup_filter_Some.
      split; [apply lookup_insert_eq | done].
    + rewrite lookup_singleton_ne by done. apply map_lookup_filter_None. right.
      intros f Hf [Hi Hp]. rewrite lookup_insert_ne in Hf by done.
      apply Hk. eapply Hfree; eauto.
Qed.

Lemma attach_twice_one_filter_witness :
  let w := world_start (host 600 no_fault None []) in
  let r1 := attachTC no_fault lo 7 "classifier/ingress" HANDLE_MIN_INGRESS w in
  let r2 := attachTC no_fault lo 7 "classifier/ingress" HANDLE_MIN_INGRESS r1.2 in
  size (link_qdiscs 1 r2.2) = 1%nat
  ∧ size (direction_filters 1 HANDLE_MIN_INGRESS r2.2) = 1%nat.
Proof.
  intros w r1 r2.
  destruct (attach_twice_one_filter no_fault lo 7 "classifier/ingress"
              HANDLE_MIN_INGRESS w
              {| f_LinkIndex := 1; f_Parent := HANDLE_MIN_INGRESS; f_Handle := 1;
                 f_Protocol := ETH_P_ALL; f_Priority := 1; f_Fd := 7;
                 f_Name := "classifier/ingress-lo"; f_DirectAction := true |}
              r1.2
              {| f_LinkIndex := 1; f_Parent := HANDLE_MIN_INGRESS; f_Handle := 1;
                 f_Protocol := ETH_P_ALL; f_Priority := 1; f_Fd := 7;
                 f_Name := "classifier/ingress-lo"; f_DirectAction := true |}
              r2.2) as (Hq & Hf & _).
  - reflexivity.
  - reflexivity.
  - intros k f Hk. cbn in Hk. rewrite lookup_empty in Hk. discriminate.
  - split; [exact Hq | exact Hf].
Defined.

(** *** The read loops *)

Lemma runPerf_loop_eq r s : runPerf_loop r s = runRingBuf_loop r s.
Proof. reflexivity. Qed.

Lemma runRingBuf_loop_spec : loop_step_spec runRingBuf_loop.
Proof.
  intros r s. split.
  - intros Hat. unfold runRingBuf_loop. rewrite Hat.
    destruct (rd_Read r s) as [raw|err].
    + destruct (binary_Read raw); cbn; rewrite ?Hat; repeat split.
    + destruct (errors_Is_ErrClosed err); cbn; rewrite ?Hat; repeat split.
  - unfold runRingBuf_loop. destruct (loop s) eqn:Hat; [| |by left|intros; congruence].
    + intros Hret. right. split; [done|].
      destruct (rd_Read r s) as [raw|err].
      * destruct (binary_Read raw); cbn in Hret; congruence.
      * destruct (errors_Is_ErrClosed err) eqn:Hcl; [by eauto|].
        cbn in Hret. congruence.
    + unfold queue_send. destruct (q_closed s); [done|].
      case_decide; cbn; congruence.
Qed.

(** C6. In both variants the read loop leaves cleanly if and only if a read
    returns the reader-closed error: any other read error is logged and the
    loop goes on, and a record that does not decode is logged and dropped
    (nothing is queued) while the loop goes on. *)
Theorem loop_exits_only_when_closed :
  loop_step_spec runRingBuf_loop ∧ loop_step_spec runPerf_loop.
Proof.
  split; [exact runRingBuf_loop_spec|].
  intros r s. rewrite runPerf_loop_eq. apply runRingBuf_loop_spec.
Qed.

Lemma loop_exits_only_when_closed_witness :
  loop (runRingBuf_loop (ReadError (ErrWrap "ringbuf" ErrClosed)) sys_start) = LoopReturned
  ∧ loop (runPerf_loop (ReadRecord [x00; x01]) sys_start) = AtRead.
Proof.
  destruct loop_exits_only_when_closed as [Hring Hperf]. split.
  - destruct (Hring (ReadError (ErrWrap "ringbuf" ErrClosed)) sys_start) as [H _].
    apply (H eq_refl).
  - destruct (Hperf (ReadRecord [x00; x01]) sys_start) as [H _].
    apply (H eq_refl).
Defined.

(** *** Shutdown *)

Lemma step_close_order mode a s : close_order s → close_order (step mode a s).
Proof.
  unfold close_order, step. destruct (finished s); [done|].
  destruct a as [|ce|r|]; cbn.
  - done.
  - unfold coordinator_step. destruct (coordinator s) eqn:Hc; cbn.
    + destruct (stopper s); cbn; by rewrite ?Hc.
    + destruct (q_closed s); cbn; rewrite ?Hc; auto.
    + destruct ce; cbn; rewrite ?Hc; tauto.
    + by rewrite Hc.
  - assert (close_order s → close_order (runRingBuf_loop r s)) as Hloop.
    { unfold close_order, runRingBuf_loop, queue_send.
      destruct (loop s); [| |done|done].
      - destruct (rd_Read r s) as [raw|err];
          [destruct (binary_Read raw)|destruct (errors_Is_ErrClosed err)]; done.
      - destruct (q_closed s) eqn:Hq; cbn; [by rewrite ?Hq|].
        case_decide; cbn; by rewrite ?Hq. }
    destruct mode; apply Hloop.
  - unfold consumer_step. destruct (consumer_done s); [done|].
    destruct (q_buf s); [destruct (q_closed s) eqn:Hq; cbn; by rewrite ?Hq|].
    destruct (4000 <? ev_DataLen h); done.
Qed.

Lemma exec_close_order mode sched : ∀ s, close_order s → close_order (exec mode sched s).
Proof.
  induction sched as [|a sched IH]; intros s Hs; [done|].
  apply IH. by apply step_close_order.
Qed.

Lemma queue_closed_before_reader mode sched :
  rd_closed (exec mode sched sys_start) = true →
  q_closed (exec mode sched sys_start) = true.
Proof.
  intros Hrd. pose proof (exec_close_order mode sched sys_start eq_refl) as H.
  unfold close_order in H. destruct (coordinator _); try congruence; tauto.
Qed.

(** C1 fails on the code. The goroutine of [main] closes the queue and only
    then the reader; when the signal arrives between the read of a record and
    its send, the loop sends on the closed queue while the reader is still
    open, and the main goroutine panics, in both variants. *)
Theorem send_on_closed_queue :
  let s := exec RingBuffer race_schedule sys_start in
  loop s = LoopPanicked ∧ halted s = Some PanicMain
  ∧ q_closed s = true ∧ rd_closed s = false
  ∧ loop (exec PerfBuffer race_schedule sys_start) = LoopPanicked
  ∧ (main 500 580 (host 600 no_fault None race_schedule)).1 = Stopped PanicMain
  ∧ (main 500 580 (host 520 no_fault None race_schedule)).1 = Stopped PanicMain.
Proof. vm_compute. repeat split. Qed.

(** *** What each part of [main] leaves untouched *)

Lemma FilterDel_frame fault f w : same_but_tc w (FilterDel fault f w).2.
Proof.
  unfold FilterDel. destruct (fault _); [done|].
  by destruct (tc_filters w !! filter_key f).
Qed.

Lemma FilterDel_calls fault f w :
  nl_calls (FilterDel fault f w).2
  = nl_calls w ++ [(NlFilterDel (filter_key f), (FilterDel fault f w).1)].
Proof.
  unfold FilterDel. destruct (fault _); [done|].
  by destruct (tc_filters w !! filter_key f).
Qed.

Lemma FilterDel_gone fault f w :
  (FilterDel fault f w).1 = None →
  tc_filters (FilterDel fault f w).2 !! filter_key f = None.
Proof.
  unfold FilterDel. destruct (fault _); [done|].
  destruct (tc_filters w !! filter_key f); [|done].
  intros _. apply lookup_delete_eq.
Qed.

Lemma FilterDel_stays_gone fault f w k :
  tc_filters w !! k = None → tc_filters (FilterDel fault f w).2 !! k = None.
Proof.
  intros Hk. unfold FilterDel. destruct (fault _); [done|].
  destruct (tc_filters w !! filter_key f); [|done].
  cbn. rewrite lookup_delete_None. by right.
Qed.

Lemma attachTC_frame fault link fd name parent w :
  same_but_tc w (attachTC fault link fd name parent w).2.
Proof.
  unfold attachTC, replaceQdisc, QdiscReplace, FilterReplace. cbn.
  destruct (fault (length (nl_calls w))); [done|]. cbn.
  destruct (fault _); [done|]. by rewrite lookup_insert_eq.
Qed.

Lemma run_deferred_call_frame E d w : same_but_tc w (run_deferred_call E d w) ∨
  ∃ r, d = DeferClose r ∧ run_deferred_call E d w = close_resource r w.
Proof.
  destruct d as [r|f]; [right; by exists r|left]. apply FilterDel_frame.
Qed.

(** The deferred calls write no log line, load nothing and do not read the
    kernel version. *)
Lemma run_deferred_quiet E w :
  logs (run_deferred E w) = logs w
  ∧ loaded (run_deferred E w) = loaded w
  ∧ kver_reads (run_deferred E w) = kver_reads w.
Proof.
  unfold run_deferred.
  change (logs w) with (logs (set_deferred [] w)).
  change (loaded w) with (loaded (set_deferred [] w)).
  change (kver_reads w) with (kver_reads (set_deferred [] w)).
  generalize (set_deferred [] w) as w0. generalize (deferred w) as ds.
  induction ds as [|d ds IH]; intros w0; [done|]. cbn.
  destruct (IH (run_deferred_call E d w0)) as (-> & -> & ->).
  destruct (run_deferred_call_frame E d w0) as [(? & ? & ? & _)|(r & -> & ->)]; done.
Qed.

Lemma run_loop_frame E mode w :
  loaded (run_loop E mode w).2 = loaded w
  ∧ kver_reads (run_loop E mode w).2 = kver_reads w
  ∧ deferred (run_loop E mode w).2 = deferred w
  ∧ nl_calls (run_loop E mode w).2 = nl_calls w
  ∧ tc_filters (run_loop E mode w).2 = tc_filters w.
Proof.
  unfold run_loop. destruct (halted _) as [[]|]; try done. by destruct (loop _).
Qed.

(** [attach_both] loads the objects of its transport and nothing else. *)
Lemma attach_both_loaded E iface mode w :
  loaded (attach_both E iface mode w).2 = loaded w ++ [mode]
  ∧ kver_reads (attach_both E iface mode w).2 = kver_reads w.
Proof.
  unfold attach_both, mbind, M_bind, act, call, defer_, log_Fatalf. cbn.
  destruct (loadObjects E); [done|]. cbn.
  destruct (LinkByIndex E (link_Index iface)) as [link|err]; [|done]. cbn.
  match goal with |- context [attachTC ?f ?l ?fd ?n ?p ?w0] =>
    pose proof (attachTC_frame f l fd n p w0) as (_ & Hl & Hk & _);
    destruct (attachTC f l fd n p w0) as [[fI|e] w1] end; cbn in *; [|by rewrite Hl, Hk].
  match goal with |- context [attachTC ?f ?l ?fd ?n ?p ?w0] =>
    pose proof (attachTC_frame f l fd n p w0) as (_ & Hl2 & Hk2 & _);
    destruct (attachTC f l fd n p w0) as [[fE|e] w2] end; cbn in *;
    by rewrite Hl2, Hk2, Hl, Hk.
Qed.

Lemma main_history minK maxK E :
  loaded (main minK maxK E).2 = loaded (main_body minK maxK E (world_start E)).2
  ∧ kver_reads (main minK maxK E).2 = kver_reads (main_body minK maxK E (world_start E)).2
  ∧ logs (main minK maxK E).2 = logs (main_body minK maxK E (world_start E)).2.
Proof.
  unfold main. destruct (main_body minK maxK E (world_start E)) as [[[]|[]] w]; cbn;
    try done; destruct (run_deferred_quiet E w) as (? & ? & ?); done.
Qed.

Lemma branch_loaded E iface mode (rest : M unit) w :
  (∀ w0, loaded (rest w0).2 = loaded w0 ∧ kver_reads (rest w0).2 = kver_reads w0) →
  loaded ((attach_both E iface mode;; rest) w).2 = loaded w ++ [mode]
  ∧ kver_reads ((attach_both E iface mode;; rest) w).2 = kver_reads w.
Proof.
  intros Hrest. unfold mbind, M_bind.
  pose proof (attach_both_loaded E iface mode w) as [Hl Hr].
  destruct (attach_both E iface mode w) as [[[]|e] w1]; cbn in *; [|done].
  destruct (Hrest w1) as [-> ->]. done.
Qed.

Lemma run_transport_quiet E mode (pre : world → world) w :
  (∀ w0, loaded (pre w0) = loaded w0 ∧ kver_reads (pre w0) = kver_reads w0) →
  let m : M unit :=
    match OpenFile E with
    | Some err => log_Fatalf (error_string err)
    | None => run_loop E mode
    end in
  loaded (m (pre w)).2 = loaded w ∧ kver_reads (m (pre w)).2 = kver_reads w.
Proof.
  intros Hpre m. subst m. destruct (Hpre w) as [Hl Hr].
  destruct (OpenFile E); cbn; [done|].
  destruct (run_loop_frame E mode (pre w)) as (-> & -> & _). done.
Qed.

Lemma ringbuf_branch_loaded E iface w :
  loaded (ringbuf_branch E iface w).2 = loaded w ++ [RingBuffer]
  ∧ kver_reads (ringbuf_branch E iface w).2 = kver_reads w.
Proof.
  apply branch_loaded. intros w0.
  destruct (NewReader E); [done|].
  apply (run_transport_quiet E RingBuffer (log_Printf "Listening for events..")). done.
Qed.

Lemma perf_branch_loaded E iface w :
  loaded (perf_branch E iface w).2 = loaded w ++ [PerfBuffer]
  ∧ kver_reads (perf_branch E iface w).2 = kver_reads w.
Proof.
  apply branch_loaded. intros w0.
  destruct (NewReader E); [done|].
  apply (run_transport_quiet E PerfBuffer
           (λ w, log_Printf "Listening for events.."
                   (set_deferred (DeferClose Reader :: deferred w) w))). done.
Qed.

(** C8. The transport is a function of the kernel version, which is read
    once: below the hard minimum the process refuses to start and loads no
    probe; at or above the second threshold it loads the ring-buffer probe
    and only that one; between the two it loads the perf-buffer probe and
    only that one, whatever happens later in the run. The interface exists
    and the version can be read; the hard minimum is not above the second
    threshold. *)
Theorem transport_selected_by_version minK maxK E iface v :
  minK ≤ maxK →
  String.length (InterfaceName E) ≠ 0%nat →
  InterfaceByName E = Ok iface →
  GetKernelVersion E = Ok v →
  kver_reads (main minK maxK E).2 = 1%nat
  ∧ (v < minK → (main minK maxK E).1 = Stopped Fatal ∧ loaded (main minK maxK E).2 = [])
  ∧ (maxK ≤ v → loaded (main minK maxK E).2 = [RingBuffer])
  ∧ (minK ≤ v < maxK → loaded (main minK maxK E).2 = [PerfBuffer]).
Proof.
  intros Hth Hname Hif Hver.
  destruct (Z.leb_spec minK v) as [Hmin|Hmin].
  - (* a supported kernel *)
    destruct (main_history minK maxK E) as (-> & -> & _).
    assert (main_body minK maxK E (world_start E)
            = ((if isMaxKernelVer maxK v
                then ringbuf_branch E iface else perf_branch E iface);;
               act (log_Printf "Received signal, exiting TC program.."))
                (add_logs (banner iface v) (note_kver_read (world_start E)))) as ->.
    { unfold main_body. rewrite Hif, Hver, decide_False by done.
      unfold isMinKernelVer. by rewrite (proj2 (Z.leb_le minK v) Hmin). }
    set (w0 := add_logs (banner iface v) (note_kver_read (world_start E))).
    assert (loaded (((if isMaxKernelVer maxK v
                      then ringbuf_branch E iface else perf_branch E iface);;
                     act (log_Printf "Received signal, exiting TC program..")) w0).2
            = [if isMaxKernelVer maxK v then RingBuffer else PerfBuffer]
            ∧ kver_reads (((if isMaxKernelVer maxK v then ringbuf_branch E iface
                            else perf_branch E iface);;
                     act (log_Printf "Received signal, exiting TC program..")) w0).2
              = 1%nat) as [Hl Hr].
    { unfold mbind, M_bind. destruct (isMaxKernelVer maxK v).
      - destruct (ringbuf_branch_loaded E iface w0) as [Hl Hr].
        destruct (ringbuf_branch E iface w0) as [[[]|e] w1]; cbn in *; by rewrite Hl, Hr.
      - destruct (perf_branch_loaded E iface w0) as [Hl Hr].
        destruct (perf_branch E iface w0) as [[[]|e] w1]; cbn in *; by rewrite Hl, Hr. }
    rewrite Hl, Hr. unfold isMaxKernelVer.
    split; [done|]. split; [lia|]. split.
    + intros Hmax. by rewrite (proj2 (Z.leb_le maxK v) Hmax).
    + intros [_ Hmax]. by rewrite (proj2 (Z.leb_gt maxK v) Hmax).
  - (* below the hard minimum *)
    assert (main minK maxK E
            = (Stopped Fatal,
               log_Printf ("kernel version: NOT OK: minimal supported kernel "
                          +:+ "version is " +:+ pretty minK
                          +:+ "; kernel version that is running is: "
                          +:+ pretty v) (note_kver_read (world_start E)))) as ->.
    { unfold main, main_body. rewrite Hif, Hver, decide_False by done.
      unfold isMinKernelVer. by rewrite (proj2 (Z.leb_gt minK v) Hmin). }
    cbn. split; [done|]. split; [done|]. split; intros; lia.
Qed.

Lemma transport_selected_by_version_witness :
  loaded (main 500 580 (host 600 no_fault None quiet_schedule)).2 = [RingBuffer]
  ∧ loaded (main 500 580 (host 520 no_fault None quiet_schedule)).2 = [PerfBuffer]
  ∧ (main 500 580 (host 419 no_fault None quiet_schedule)).1 = Stopped Fatal.
Proof.
  split; [|split].
  - apply (transport_selected_by_version 500 580
             (host 600 no_fault None quiet_schedule) lo 600); [lia|done|done|done|lia].
  - apply (transport_selected_by_version 500 580
             (host 520 no_fault None quiet_schedule) lo 520); [lia|done|done|done|lia].
  - apply (transport_selected_by_version 500 580
             (host 419 no_fault None quiet_schedule) lo 419); [lia|done|done|done|lia].
Defined.

(** *** Teardown *)

(** When [attach_both] goes through, the deferred calls of [main] are, from
    the top of the stack, the deletion of the egress filter, the deletion of
    the ingress filter and the closing of the objects. *)
Lemma attach_both_val E iface mode w w1 :
  attach_both E iface mode w = (Val (), w1) →
  ∃ link fI fE,
    LinkByIndex E (link_Index iface) = Ok link
    ∧ filter_key fI = (link_Index link, HANDLE_MIN_INGRESS, 1, 1)
    ∧ filter_key fE = (link_Index link, HANDLE_MIN_EGRESS, 1, 1)
    ∧ deferred w1
      = DeferFilterDel fE :: DeferFilterDel fI :: DeferClose Objs :: deferred w.
Proof.
  unfold attach_both, mbind, M_bind, act, call, defer_, log_Fatalf. cbn.
  destruct (loadObjects E); [discriminate|]. cbn.
  destruct (LinkByIndex E (link_Index iface)) as [link|err]; [|discriminate]. cbn.
  match goal with |- context [attachTC ?f ?l ?fd ?n ?p ?w0] =>
    pose proof (attachTC_frame f l fd n p w0) as (_ & _ & _ & Hd & _);
    pose proof (attachTC_ok f l fd n p w0) as Hok;
    destruct (attachTC f l fd n p w0) as [[fI|e] wI] end; cbn in *; [|discriminate].
  destruct (Hok _ _ eq_refl) as (HfI & _).
  match goal with |- context [attachTC ?f ?l ?fd ?n ?p ?w0] =>
    pose proof (attachTC_frame f l fd n p w0) as (_ & _ & _ & Hd2 & _);
    pose proof (attachTC_ok f l fd n p w0) as Hok2;
    destruct (attachTC f l fd n p w0) as [[fE|e] wE] end; cbn in *; [|discriminate].
  destruct (Hok2 _ _ eq_refl) as (HfE & _).
  intros [= <-]. exists link, fI, fE. cbn. rewrite Hd2, Hd.
  split; [done|]. by rewrite HfI, HfE.
Qed.

Lemma run_loop_val E mode w w1 :
  run_loop E mode w = (Val (), w1) → deferred w1 = deferred w ∧ nl_calls w1 = nl_calls w.
Proof.
  intros H. destruct (run_loop_frame E mode w) as (_ & _ & Hd & Hn & _).
  rewrite H in Hd, Hn. done.
Qed.

(** When [main] returns, its deferred calls are those of [attach_both],
    under the closing of the reader in the perf variant. *)
Lemma main_body_val minK maxK E w :
  main_body minK maxK E (world_start E) = (Val (), w) →
  ∃ iface link fI fE pre,
    InterfaceByName E = Ok iface
    ∧ LinkByIndex E (link_Index iface) = Ok link
    ∧ filter_key fI = (link_Index link, HANDLE_MIN_INGRESS, 1, 1)
    ∧ filter_key fE = (link_Index link, HANDLE_MIN_EGRESS, 1, 1)
    ∧ (pre = [] ∨ pre = [DeferClose Reader])
    ∧ deferred w = pre ++ [DeferFilterDel fE; DeferFilterDel fI; DeferClose Objs]
    ∧ last (logs w) = Some "Received signal, exiting TC program..".
Proof.
  unfold main_body. case_decide; [discriminate|].
  destruct (InterfaceByName E) as [iface|]; [|discriminate].
  destruct (GetKernelVersion E) as [v|]; [|discriminate].
  unfold mbind at 1. unfold M_bind at 1. cbn [act].
  destruct (negb (isMinKernelVer minK v)); [discriminate|].
  unfold mbind at 1 2. unfold M_bind at 1 2. cbn [act].
  set (w0 := add_logs (banner iface v) (note_kver_read (world_start E))).
  assert (deferred w0 = []) as Hw0 by done.
  destruct (isMaxKernelVer maxK v).
  - unfold ringbuf_branch, mbind, M_bind.
    destruct (attach_both E iface RingBuffer w0) as [[[]|e] w1] eqn:Ha; [|discriminate].
    destruct (attach_both_val _ _ _ _ _ Ha) as (link & fI & fE & Hlink & HfI & HfE & Hd).
    destruct (NewReader E); [discriminate|].
    unfold runRingBuf, mbind, M_bind, act, log_Fatalf. cbn.
    destruct (OpenFile E); [discriminate|].
    match goal with |- context [run_loop E ?md ?wl] =>
      destruct (run_loop E md wl) as [[[]|e] w2] eqn:Hrl end; [|discriminate].
    destruct (run_loop_val _ _ _ _ Hrl) as [Hd2 _]. cbn in Hd2.
    intros [= <-]. exists iface, link, fI, fE, []. cbn.
    rewrite Hd2, Hd, Hw0. repeat split; auto. by rewrite last_snoc.
  - unfold perf_branch, mbind, M_bind.
    destruct (attach_both E iface PerfBuffer w0) as [[[]|e] w1] eqn:Ha; [|discriminate].
    destruct (attach_both_val _ _ _ _ _ Ha) as (link & fI & fE & Hlink & HfI & HfE & Hd).
    destruct (NewReader E); [discriminate|].
    unfold runPerf, mbind, M_bind, act, defer_, log_Fatalf. cbn.
    destruct (OpenFile E); [discriminate|].
    match goal with |- context [run_loop E ?md ?wl] =>
      destruct (run_loop E md wl) as [[[]|e] w2] eqn:Hrl end; [|discriminate].
    destruct (run_loop_val _ _ _ _ Hrl) as [Hd2 _]. cbn in Hd2.
    intros [= <-]. exists iface, link, fI, fE, [DeferClose Reader]. cbn.
    rewrite Hd2, Hd, Hw0. repeat split; auto. by rewrite last_snoc.
Qed.

(** The two deferred deletions when they run: two netlink calls, and a
    filter whose deletion succeeds is gone afterwards. *)
Lemma deferred_deletions E fE fI w0 :
  let w := foldl (λ w d, run_deferred_call E d w) w0
             [DeferFilterDel fE; DeferFilterDel fI; DeferClose Objs] in
  ∃ rE rI,
    nl_calls w = nl_calls w0 ++ [(NlFilterDel (filter_key fE), rE);
                                 (NlFilterDel (filter_key fI), rI)]
    ∧ (rE = None → tc_filters w !! filter_key fE = None)
    ∧ (rI = None → tc_filters w !! filter_key fI = None).
Proof.
  cbn.
  exists (FilterDel (nl_fault E) fE w0).1,
         (FilterDel (nl_fault E) fI (FilterDel (nl_fault E) fE w0).2).1.
  rewrite !FilterDel_calls, <- app_assoc. split; [done|]. split.
  - intros Hr. apply FilterDel_stays_gone. by apply FilterDel_gone.
  - apply FilterDel_gone.
Qed.

(** C5, as the code has it. When the read loop exits and the body of [main]
    runs to its end, the two deferred deletions run, the egress filter first
    and the ingress filter after it; a filter whose deletion succeeds is gone
    from the table; the result of a deletion is dropped: whatever it is, the
    process ends by returning, and the deferred calls add no line to the log,
    whose last line is the one [main] writes before it returns. *)
Theorem filters_deleted_on_return minK maxK E :
  (main_body minK maxK E (world_start E)).1 = Val () →
  ∃ iface link pre rE rI,
    (main minK maxK E).1 = Returned
    ∧ InterfaceByName E = Ok iface
    ∧ LinkByIndex E (link_Index iface) = Ok link
    ∧ nl_calls (main minK maxK E).2
      = pre ++ [(NlFilterDel (link_Index link, HANDLE_MIN_EGRESS, 1, 1), rE);
                (NlFilterDel (link_Index link, HANDLE_MIN_INGRESS, 1, 1), rI)]
    ∧ (rE = None →
       tc_filters (main minK maxK E).2 !! (link_Index link, HANDLE_MIN_EGRESS, 1, 1) = None)
    ∧ (rI = None →
       tc_filters (main minK maxK E).2 !! (link_Index link, HANDLE_MIN_INGRESS, 1, 1) = None)
    ∧ logs (main minK maxK E).2 = logs (main_body minK maxK E (world_start E)).2
    ∧ last (logs (main minK maxK E).2) = Some "Received signal, exiting TC program..".
Proof.
  intros Hret.
  destruct (main_history minK maxK E) as (_ & _ & Hlogs).
  revert Hret Hlogs. unfold main.
  destruct (main_body minK maxK E (world_start E)) as [[[]|e] w] eqn:Hbody;
    [|discriminate].
  intros _ Hlogs. cbn [fst snd] in *.
  destruct (main_body_val _ _ _ _ Hbody)
    as (iface & link & fI & fE & pre & Hif & Hlink & HfI & HfE & Hpre & Hd & Hlast).
  exists iface, link.
  assert (∃ w0, run_deferred E w
                = foldl (λ w d, run_deferred_call E d w) w0
                    [DeferFilterDel fE; DeferFilterDel fI; DeferClose Objs]
                ∧ nl_calls w0 = nl_calls w) as (w0 & Hrun & Hcalls).
  { unfold run_deferred. rewrite Hd. destruct Hpre as [-> | ->].
    - by exists (set_deferred [] w).
    - by exists (close_resource Reader (set_deferred [] w)). }
  destruct (deferred_deletions E fE fI w0) as (rE & rI & Hn & HgE & HgI).
  cbn zeta in Hn, HgE, HgI. rewrite <- Hrun, HfE, HfI, Hcalls in *.
  exists (nl_calls w), rE, rI. rewrite Hlogs. done.
Qed.

Lemma filters_deleted_on_return_witness :
  ∃ iface link pre rE rI,
    (main 500 580 (host 600 del_fault None quiet_schedule)).1 = Returned
    ∧ InterfaceByName (host 600 del_fault None quiet_schedule) = Ok iface
    ∧ LinkByIndex (host 600 del_fault None quiet_schedule) (link_Index iface) = Ok link
    ∧ nl_calls (main 500 580 (host 600 del_fault None quiet_schedule)).2
      = pre ++ [(NlFilterDel (link_Index link, HANDLE_MIN_EGRESS, 1, 1), rE);
                (NlFilterDel (link_Index link, HANDLE_MIN_INGRESS, 1, 1), rI)]
    ∧ (rE = None →
       tc_filters (main 500 580 (host 600 del_fault None quiet_schedule)).2
         !! (link_Index link, HANDLE_MIN_EGRESS, 1, 1) = None)
    ∧ (rI = None →
       tc_filters (main 500 580 (host 600 del_fault None quiet_schedule)).2
         !! (link_Index link, HANDLE_MIN_INGRESS, 1, 1) = None)
    ∧ logs (main 500 580 (host 600 del_fault None quiet_schedule)).2
      = logs (main_body 500 580 (host 600 del_fault None quiet_schedule)
                (world_start (host 600 del_fault None quiet_schedule))).2
    ∧ last (logs (main 500 580 (host 600 del_fault None quiet_schedule)).2)
      = Some "Received signal, exiting TC program..".
Proof.
  apply (filters_deleted_on_return 500 580 (host 600 del_fault None quiet_schedule)).
  vm_compute. reflexivity.
Defined.

(** C5 fails as it is stated. First, a failed deletion is not logged: with
    the deletion of the egress filter failing, [main] returns, the filter is
    still installed and the log is that of a run without the failure.
    Second, an exit through [log.Fatal] skips the deferred calls: when the
    database cannot be opened the process exits with both filters installed
    and no deletion attempted. *)
Lemma filter_deletion_not_on_every_path :
  let failed := main 500 580 (host 600 del_fault None quiet_schedule) in
  let clean := main 500 580 (host 600 no_fault None quiet_schedule) in
  let fatal := main 500 580 (host 600 no_fault (Some (ErrOther "resource temporarily unavailable")) []) in
  (failed.1 = Returned
   ∧ (NlFilterDel (1, HANDLE_MIN_EGRESS, 1, 1), Some (ErrOther "operation not permitted"))
     ∈ nl_calls failed.2
   ∧ tc_filters failed.2 !! (1, HANDLE_MIN_EGRESS, 1, 1) ≠ None
   ∧ logs failed.2 = logs clean.2)
  ∧ (fatal.1 = Stopped Fatal
     ∧ tc_filters fatal.2 !! (1, HANDLE_MIN_INGRESS, 1, 1) ≠ None
     ∧ tc_filters fatal.2 !! (1, HANDLE_MIN_EGRESS, 1, 1) ≠ None
     ∧ length (nl_calls fatal.2) = 4%nat
     ∧ Forall (λ c, ∀ k, c.1 ≠ NlFilterDel k) (nl_calls fatal.2)).
Proof.
  vm_compute. repeat split; try discriminate.
  - apply list_elem_of_In. do 4 right. left. reflexivity.
  - repeat constructor; discriminate.
Qed.

End PrismFacts.

(** ** Further properties of the capture probe *)

Module ProbeExtra.
Import Probe Views ProbeFacts.

Lemma passes_captures V skb k :
  skb_len skb < 2 ^ 32 → passes_filters V skb k = true →
  data_buffer_heap k ≠ [] → rb_used k + 4016 ≤ rb_max_entries →
  captures V skb k = true.
Proof.
  intros Hlen Hpass Hheap Hroom. revert Hpass. unfold passes_filters, captures.
  rewrite !andb_true_iff. intros [[[Hhdr Heth] Hip] Hmin].
  pose proof (frame_length_le skb k). pose proof (frame_length_eq skb k).
  rewrite Z.mod_small by lia.
  repeat split; try done.
  - by rewrite bool_decide_eq_false_2.
  - lia.
Qed.

(** A run that appends a record is a capturing run, and the record is the
    committed event of the frame. *)
Lemma event_inv V skb ty k st ev :
  http_events (capture_packets V skb ty k).2 = http_events k ++ [(st, ev)] →
  captures V skb k = true ∧ st = Committed ∧ ev = captured_event ty skb k.
Proof.
  destruct (captures V skb k) eqn:Hc.
  - rewrite (capture_packets_captures _ _ _ _ Hc). cbn [snd http_events].
    intros H%app_inv_head. by simplify_eq.
  - destruct (capture_packets_skips V skb ty k Hc) as (t & -> & _).
    cbn [snd http_events]. intros H. apply (f_equal length) in H.
    rewrite length_app in H. cbn in H. lia.
Qed.

Lemma captured_data_len ty skb k :
  skb_len skb < 2 ^ 32 →
  data_len (captured_event ty skb k) = Z.min (frame_length skb k) MAX_DATA_SIZE.
Proof.
  intros Hlen. pose proof (frame_length_le skb k). pose proof (frame_length_eq skb k).
  unfold captured_event. cbn [data_len]. rewrite Z.mod_small by lia.
  destruct (Z.ltb_spec (frame_length skb k) MAX_DATA_SIZE); lia.
Qed.

(** X1. A frame that passes the four filters is captured whenever the
    per-CPU array has its value and the ring buffer has room for a record:
    the probe appends exactly one committed event with the direction of the
    hook and the length [min(frame_length, 4000)], takes 4016 bytes of the
    ring and passes the packet. *)
Theorem capture_when_possible V skb ty k :
  skb_len skb < 2 ^ 32 →
  passes_filters V skb k = true →
  data_buffer_heap k ≠ [] →
  rb_used k + 4016 < rb_max_entries →
  ∃ ev, capture_packets V skb ty k
        = (TC_ACT_OK,
           {| data_buffer_heap := data_buffer_heap k;
              http_events := http_events k ++ [(Committed, ev)];
              rb_used := rb_used k + 4016; rb_stale := rb_stale k;
              pull_ok := pull_ok k; trace := trace k ++ capture_trace skb k |})
      ∧ type ev = tc_type_val ty
      ∧ data_len ev = Z.min (frame_length skb k) MAX_DATA_SIZE
      ∧ length (data ev) = 4000%nat.
Proof.
  intros Hlen Hpass Hheap Hroom.
  assert (rb_used k + 4016 ≤ rb_max_entries) as Hroom' by lia.
  pose proof (passes_captures V skb k Hlen Hpass Hheap Hroom') as Hc.
  exists (captured_event ty skb k). split; [by apply capture_packets_captures|].
  split; [done|]. split; [by apply captured_data_len|].
  unfold captured_event. cbn [data]. by rewrite copy_bytes_length, length_resize.
Qed.

Lemma capture_when_possible_witness :
  ∃ ev, capture_packets linux_headers (skb_of (http_frame 300)) Ingress idle_kernel
        = (TC_ACT_OK,
           {| data_buffer_heap := data_buffer_heap idle_kernel;
              http_events := http_events idle_kernel ++ [(Committed, ev)];
              rb_used := rb_used idle_kernel + 4016; rb_stale := rb_stale idle_kernel;
              pull_ok := pull_ok idle_kernel;
              trace := trace idle_kernel
                       ++ capture_trace (skb_of (http_frame 300)) idle_kernel |})
      ∧ type ev = tc_type_val Ingress
      ∧ data_len ev = Z.min (frame_length (skb_of (http_frame 300)) idle_kernel) MAX_DATA_SIZE
      ∧ length (data ev) = 4000%nat.
Proof.
  apply (capture_when_possible linux_headers (skb_of (http_frame 300)) Ingress idle_kernel).
  - vm_compute. reflexivity.
  - vm_compute. reflexivity.
  - discriminate.
  - vm_compute. reflexivity.
Defined.

(** X2. Without a value in the per-CPU array, or without room in the ring
    buffer, nothing is captured, whatever the frame: the packet passes, and
    the ring buffer, its space in use and the per-CPU array are as before;
    nothing is reserved, stored or submitted. The scratch value is never
    written, yet its absence suppresses the capture. *)
Theorem nothing_captured_without_memory V skb ty k :
  data_buffer_heap k = [] ∨ rb_max_entries < rb_used k + 4016 →
  (capture_packets V skb ty k).1 = TC_ACT_OK
  ∧ http_events (capture_packets V skb ty k).2 = http_events k
  ∧ rb_used (capture_packets V skb ty k).2 = rb_used k
  ∧ data_buffer_heap (capture_packets V skb ty k).2 = data_buffer_heap k
  ∧ submits (run_trace k (capture_packets V skb ty k).2) = []
  ∧ Forall (λ o, store_target o = None) (run_trace k (capture_packets V skb ty k).2).
Proof.
  intros Hmem.
  assert (captures V skb k = false) as Hc.
  { unfold captures. destruct Hmem as [-> | Hfull].
    - rewrite bool_decide_eq_true_2 by done. cbn. by rewrite andb_false_r.
    - rewrite (proj2 (Z.leb_gt _ _) Hfull). by rewrite andb_false_r. }
  destruct (capture_packets_skips V skb ty k Hc) as (t & -> & Ht).
  unfold run_trace. cbn [fst snd http_events rb_used data_buffer_heap trace].
  rewrite drop_app_length.
  destruct Ht as [->|[->| ->]]; repeat split; repeat constructor.
Qed.

Lemma nothing_captured_without_memory_witness :
  http_events (capture_packets linux_headers (skb_of (http_frame 300)) Ingress
                 {| data_buffer_heap := []; http_events := []; rb_used := 0;
                    rb_stale := rb_stale idle_kernel; pull_ok := true; trace := [] |}).2
  = [].
Proof.
  apply (nothing_captured_without_memory linux_headers (skb_of (http_frame 300)) Ingress
           {| data_buffer_heap := []; http_events := []; rb_used := 0;
              rb_stale := rb_stale idle_kernel; pull_ok := true; trace := [] |}).
  left. reflexivity.
Defined.

Lemma copy_bytes_untouched n : ∀ fr j d (i : nat),
  (length fr ≤ i ∨ j + n ≤ i)%nat → copy_bytes n fr j d !! i = d !! i.
Proof.
  induction n as [|n IH]; intros fr j d i Hi; cbn; [done|].
  destruct (fr !! j) as [b|] eqn:Hb; [|done].
  apply lookup_lt_Some in Hb.
  rewrite IH by lia. apply list_lookup_insert_ne. lia.
Qed.

(** X3. The probe does not clear the rest of the payload: in an event, the
    bytes from [data_len] on are what the reserved ring memory held before,
    so a consumer must not read the payload beyond [data_len]. *)
Theorem payload_tail_is_stale V skb ty k st ev (i : nat) :
  skb_len skb < 2 ^ 32 →
  http_events (capture_packets V skb ty k).2 = http_events k ++ [(st, ev)] →
  data_len ev ≤ Z.of_nat i →
  data ev !! i = resize 4000 x00 (data (rb_stale k)) !! i.
Proof.
  intros Hlen Hev Hi. destruct (event_inv _ _ _ _ _ _ Hev) as (_ & _ & ->).
  rewrite (captured_data_len _ _ _ Hlen) in Hi.
  pose proof (frame_length_eq skb k) as Hfl.
  unfold captured_event. cbn [data].
  change (Z.to_nat MAX_DATA_SIZE) with 4000%nat.
  apply copy_bytes_untouched. unfold MAX_DATA_SIZE in Hi. lia.
Qed.

Lemma payload_tail_is_stale_witness :
  ∃ ev, data ev !! 250%nat = Some xff.
Proof.
  eexists. 
  rewrite (payload_tail_is_stale linux_headers (skb_of (http_frame 200)) Ingress
             idle_kernel Committed
             (captured_event Ingress (skb_of (http_frame 200)) idle_kernel) 250).
  - vm_compute. reflexivity.
  - vm_compute. reflexivity.
  - vm_compute. reflexivity.
  - vm_compute. discriminate.
Defined.



(** A run that captures nothing, with its trace. *)
Lemma capture_packets_skip_trace V skb ty k :
  captures V skb k = false →
  capture_packets V skb ty k =
    (TC_ACT_OK,
     {| data_buffer_heap := data_buffer_heap k; http_events := http_events k;
        rb_used := rb_used k; rb_stale := rb_stale k; pull_ok := pull_ok k;
        trace := trace k ++ skip_trace V skb k |}).
Proof.
  intros Hno. unfold capture_packets, skip_trace. rewrite pull_data_eq.
  fold (frame_length skb k). rewrite ethertype_test. fold (ip_protocol V (pulled skb k)).
  pose proof (Z.mod_pos_bound (frame_length skb k) (2 ^ 32) eq_refl) as Hlen.
  assert ((skb_data (pulled skb k) + ETH_HLEN V + IP_HLEN V + TCP_HLEN V
           >? skb_data_end (pulled skb k))
          = negb (ETH_HLEN V + IP_HLEN V + TCP_HLEN V <=? frame_length skb k)) as ->.
  { unfold frame_length. lia. }
  destruct (_ <=? frame_length skb k) eqn:Hhdr; cbn [negb andb]; [|done].
  destruct (ethertype V (pulled skb k) =? ETH_P_IP) eqn:Heth; cbn [negb andb]; [|done].
  destruct (ip_protocol V (pulled skb k) =? IPPROTO_TCP V) eqn:Hip; cbn [negb andb]; [|done].
  assert ((frame_length skb k mod 2 ^ 32 <? 0) = false) as -> by lia.
  assert ((frame_length skb k mod 2 ^ 32 <=? HTTP_DATA_MIN_SIZE)
          = negb (HTTP_DATA_MIN_SIZE <? frame_length skb k mod 2 ^ 32)) as -> by lia.
  destruct (HTTP_DATA_MIN_SIZE <? _) eqn:Hmin; cbn [negb]; [|done].
  unfold create_http_data_event, bpf_map_lookup_elem.
  cbn [log_op data_buffer_heap].
  destruct (data_buffer_heap k) as [|v heap] eqn:Hheap.
  { rewrite bool_decide_eq_true_2 by done.
    cbn. unfold log_op; cbn. by rewrite Hheap, <- app_assoc. }
  rewrite bool_decide_eq_false_2 by done.
  assert ((0 <=? 0) && (0 <? Z.of_nat (length (v :: heap))) = true) as ->.
  { apply andb_true_intro. split; [reflexivity|]. apply Z.ltb_lt. cbn [length]. lia. }
  change (Z.to_nat 0) with 0%nat. cbn [is_null].
  unfold bpf_ringbuf_reserve.
  replace ((sizeof_http_data_event + BPF_RINGBUF_HDR_SZ + 7) / 8 * 8) with 4016
    by reflexivity.
  cbn [log_op rb_used].
  destruct (rb_used k + 4016 >? rb_max_entries) eqn:Hroom.
  { cbn [is_null]. unfold log_op; cbn. by rewrite Hheap, <- !app_assoc. }
  exfalso. revert Hno. unfold captures. fold (frame_length skb k).
  rewrite Hhdr, Heth, Hip, Hmin, Hheap.
  assert ((rb_used k + 4016 <=? rb_max_entries) = true) as -> by lia.
  by rewrite bool_decide_eq_false_2.
Qed.

(** A run that captures nothing does not look at the direction. *)
Lemma skip_ignores_direction V skb ty ty' k :
  captures V skb k = false →
  capture_packets V skb ty k = capture_packets V skb ty' k.
Proof.
  intros Hc. by rewrite !(capture_packets_skip_trace _ _ _ _ Hc).
Qed.

(** X5. The two hooks capture alike: on the same packet and kernel state
    they return the same code, leave the same trace, ring space and per-CPU
    array, and their events are the same but for the direction of the event
    added, 0 at the egress hook and 1 at the ingress hook. *)
Theorem hooks_differ_in_direction_only V skb k :
  let e := egress_cls_func V skb k in
  let i := ingress_cls_func V skb k in
  e.1 = i.1
  ∧ trace e.2 = trace i.2
  ∧ rb_used e.2 = rb_used i.2
  ∧ data_buffer_heap e.2 = data_buffer_heap i.2
  ∧ Forall2 (λ a b, a.1 = b.1 ∧ data a.2 = data b.2 ∧ data_len a.2 = data_len b.2
                    ∧ (a = b ∨ (type a.2 = 0 ∧ type b.2 = 1)))
      (http_events e.2) (http_events i.2).
Proof.
  unfold egress_cls_func, ingress_cls_func. cbn zeta.
  destruct (captures V skb k) eqn:Hc.
  - rewrite !(capture_packets_captures _ _ _ _ Hc). cbn [fst snd trace rb_used
      data_buffer_heap http_events].
    repeat split. apply Forall2_app.
    + apply Forall_Forall2_diag, Forall_forall. intros x _. auto.
    + constructor; [|constructor]. cbn [fst snd]. unfold captured_event.
      cbn [type data data_len tc_type_val]. repeat split. by right.
  - rewrite (skip_ignores_direction V skb Egress Ingress k Hc).
    repeat split. apply Forall_Forall2_diag, Forall_forall. intros x _. auto.
Qed.

(** X6. When the packet can be linearised the probe captures from the whole
    packet, fragments included: the length of the event is
    [min(skb->len, 4000)] and its payload starts with the bytes of the linear
    part followed by those of the fragments. When it cannot, the probe sees
    the linear part only. *)
Theorem capture_covers_fragments V skb ty k st ev :
  skb_len skb < 2 ^ 32 →
  http_events (capture_packets V skb ty k).2 = http_events k ++ [(st, ev)] →
  (pull_ok k = true →
     data_len ev = Z.min (skb_len skb) MAX_DATA_SIZE
     ∧ take (Z.to_nat (data_len ev)) (data ev)
       = take (Z.to_nat (data_len ev)) (skb_linear skb ++ skb_frags skb))
  ∧ (pull_ok k = false →
     data_len ev = Z.min (Z.of_nat (length (skb_linear skb))) MAX_DATA_SIZE
     ∧ take (Z.to_nat (data_len ev)) (data ev)
       = take (Z.to_nat (data_len ev)) (skb_linear skb)).
Proof.
  intros Hlen Hev. destruct (event_inv _ _ _ _ _ _ Hev) as (_ & _ & ->).
  pose proof (captured_data_len ty skb k Hlen) as Hdl.
  pose proof (frame_length_eq skb k) as Hfl.
  assert (take (Z.to_nat (data_len (captured_event ty skb k)))
            (data (captured_event ty skb k))
          = take (Z.to_nat (data_len (captured_event ty skb k))) (frame skb k)) as Hpre.
  { rewrite Hdl. unfold captured_event. cbn [data].
    apply copy_bytes_prefix; [apply length_resize| |]; unfold MAX_DATA_SIZE; lia. }
  split; intros Hok.
  - rewrite Hpre, Hdl, Hfl, (frame_whole skb k Hok). split; [|done].
    unfold skb_len. by rewrite length_app.
  - assert (frame skb k = skb_linear skb) as Hfr.
    { unfold frame, pulled, bpf_skb_pull_data. cbn. rewrite Hok. cbn.
      by rewrite orb_true_r. }
    rewrite Hpre, Hdl, Hfl, Hfr. done.
Qed.

Lemma capture_covers_fragments_witness :
  data_len (captured_event Ingress (skb_of (http_frame 200)) idle_kernel) = 200.
Proof.
  destruct (capture_covers_fragments linux_headers (skb_of (http_frame 200)) Ingress
              idle_kernel Committed
              (captured_event Ingress (skb_of (http_frame 200)) idle_kernel))
    as [Hok _].
  - vm_compute. reflexivity.
  - vm_compute. reflexivity.
  - destruct (Hok eq_refl) as [Hlen _]. rewrite Hlen. vm_compute. reflexivity.
Defined.

Lemma byte_val_inj b c : byte_val b = byte_val c → b = c.
Proof.
  unfold byte_val. intros H. apply N2Z.inj in H.
  pose proof (Byte.of_to_N b) as Hb. pose proof (Byte.of_to_N c) as Hc'.
  rewrite H in Hb. congruence.
Qed.

(** X7. Every captured frame is an IPv4/TCP frame by its header bytes: with
    the layout of the Linux headers, a frame for which an event is produced
    has more than 91 bytes, the bytes 08 00 at offsets 12 and 13 (the
    Ethertype in network byte order) and the byte 06 at offset 23 (the IP
    protocol). *)
Theorem captured_frame_headers skb ty k st ev :
  http_events (capture_packets linux_headers skb ty k).2 = http_events k ++ [(st, ev)] →
  (91 < length (frame skb k))%nat
  ∧ frame skb k !! 12%nat = Some x08
  ∧ frame skb k !! 13%nat = Some x00
  ∧ frame skb k !! 23%nat = Some x06.
Proof.
  intros Hev. destruct (event_inv _ _ _ _ _ _ Hev) as (Hc & _ & _).
  apply captures_passes in Hc. revert Hc. unfold passes_filters.
  rewrite !andb_true_iff, !Z.eqb_eq, Z.leb_le, Z.ltb_lt.
  intros [[[Hhdr Heth] Hip] Hmin].
  pose proof (frame_length_eq skb k) as Hfl. unfold HTTP_DATA_MIN_SIZE in Hmin.
  assert (∀ j : nat, (j < length (frame skb k))%nat →
            frame skb k !! j
            = Some (load_byte (pulled skb k) (skb_data (pulled skb k) + Z.of_nat j)))
    as Hload.
  { intros j Hj. destruct (lookup_lt_is_Some_2 (frame skb k) j Hj) as [b Hb].
    rewrite Hb. f_equal. symmetry. by apply load_byte_frame. }
  split; [lia|].
  revert Heth Hip. unfold ethertype, ip_protocol, load_u8, ETH_P_IP. cbn.
  pose proof (byte_val_range (load_byte (pulled skb k) (skb_data (pulled skb k) + 12))).
  pose proof (byte_val_range (load_byte (pulled skb k) (skb_data (pulled skb k) + 12 + 1))).
  intros Heth Hip.
  rewrite (Hload 12%nat), (Hload 13%nat), (Hload 23%nat) by lia.
  repeat split; f_equal; apply byte_val_inj.
  - change (byte_val x08) with 8. change (Z.of_nat 12) with 12. lia.
  - change (byte_val x00) with 0. change (Z.of_nat 13) with 13.
    replace (skb_data (pulled skb k) + 13) with (skb_data (pulled skb k) + 12 + 1) by lia.
    lia.
  - change (byte_val x06) with 6. change (Z.of_nat 23) with 23.
    replace (skb_data (pulled skb k) + 23) with (skb_data (pulled skb k) + 14 + 9) by lia.
    done.
Qed.

Lemma captured_frame_headers_witness :
  frame (skb_of (http_frame 200)) idle_kernel !! 23%nat = Some x06.
Proof.
  apply (captured_frame_headers (skb_of (http_frame 200)) Ingress idle_kernel Committed
           (captured_event Ingress (skb_of (http_frame 200)) idle_kernel)).
  vm_compute. reflexivity.
Defined.

Lemma captured_event_sound ty skb k : sound_record (Committed, captured_event ty skb k).
Proof.
  unfold sound_record, captured_event. cbn [fst snd data data_len type].
  rewrite copy_bytes_length, length_resize.
  pose proof (Z.mod_pos_bound (frame_length skb k) (2 ^ 32) eq_refl).
  unfold MAX_DATA_SIZE. repeat split; try (destruct (_ <? 4000) eqn:?; lia).
  destruct ty; auto.
Qed.

(** One packet: the ring grows by at most one sound record, which takes
    4016 bytes. *)
Lemma one_packet V skb ty k :
  ∃ added,
    http_events (capture_packets V skb ty k).2 = http_events k ++ added
    ∧ Forall sound_record added ∧ (length added ≤ 1)%nat
    ∧ rb_used (capture_packets V skb ty k).2 = rb_used k + 4016 * Z.of_nat (length added)
    ∧ data_buffer_heap (capture_packets V skb ty k).2 = data_buffer_heap k
    ∧ rb_stale (capture_packets V skb ty k).2 = rb_stale k
    ∧ (rb_used k ≤ rb_max_entries → rb_used (capture_packets V skb ty k).2 ≤ rb_max_entries).
Proof.
  destruct (captures V skb k) eqn:Hc.
  - rewrite (capture_packets_captures _ _ _ _ Hc).
    cbn [snd http_events rb_used data_buffer_heap rb_stale].
    exists [(Committed, captured_event ty skb k)]. split; [done|].
    split; [constructor; [apply captured_event_sound|constructor]|].
    cbn. repeat split; try lia.
    revert Hc. unfold captures. rewrite !andb_true_iff. lia.
  - destruct (capture_packets_skips V skb ty k Hc) as (t & -> & _).
    cbn [snd http_events rb_used data_buffer_heap rb_stale].
    exists []. rewrite app_nil_r. cbn. repeat split; (lia || constructor).
Qed.

(** X22. Over any sequence of packets the probe only appends to the ring:
    the records that were there are untouched and stay in place, every
    record added is committed, has its 4000 payload bytes, a length of at
    most 4000 and a direction 0 or 1, there is at most one per packet, each
    takes 4016 bytes of the ring, whose space in use never exceeds its 256
    KiB, and the per-CPU array is never changed. *)
Theorem ring_only_grows V pkts : ∀ k,
  ∃ added,
    http_events (run_hooks V pkts k) = http_events k ++ added
    ∧ Forall sound_record added
    ∧ (length added ≤ length pkts)%nat
    ∧ rb_used (run_hooks V pkts k) = rb_used k + 4016 * Z.of_nat (length added)
    ∧ data_buffer_heap (run_hooks V pkts k) = data_buffer_heap k
    ∧ (rb_used k ≤ rb_max_entries → rb_used (run_hooks V pkts k) ≤ rb_max_entries).
Proof.
  induction pkts as [|[ty skb] pkts IH]; intros k.
  { exists []. rewrite app_nil_r. cbn. repeat split; (lia || constructor). }
  unfold run_hooks. cbn [foldl fst snd].
  fold (run_hooks V pkts (capture_packets V skb ty k).2).
  destruct (one_packet V skb ty k) as (a1 & He1 & Hs1 & Hl1 & Hu1 & Hh1 & _ & Hb1).
  destruct (IH (capture_packets V skb ty k).2) as (a2 & He2 & Hs2 & Hl2 & Hu2 & Hh2 & Hb2).
  exists (a1 ++ a2). rewrite He2, He1, Hu2, Hu1, Hh2, Hh1, <- app_assoc, length_app.
  split; [done|]. split; [by apply Forall_app|]. cbn [length].
  repeat split; lia.
Qed.

End ProbeExtra.

(** ** Further properties of the userspace side *)

Module PrismExtra.
Import Probe Prism Views ProbeFacts PrismFacts ProbeExtra.

(** *** From the probe to the parser *)

Lemma byte_val_of_Z z : byte_val (byte_of_Z z) = z mod 256.
Proof.
  unfold byte_val, byte_of_Z.
  pose proof (Z.mod_pos_bound z 256 eq_refl) as Hz.
  destruct (Byte.of_N (Z.to_N (z mod 256))) as [b|] eqn:Hb.
  - apply Byte.to_of_N in Hb. rewrite Hb. lia.
  - apply Byte.of_N_None_iff in Hb. lia.
Qed.

Lemma le32_decode_le32 z : 0 ≤ z < 2 ^ 32 → le32_decode (le32 z) = z.
Proof.
  intros Hz. unfold le32_decode, le32. rewrite !byte_val_of_Z.
  change (2 ^ 32) with 4294967296 in Hz.
  Z.div_mod_to_equations. lia.
Qed.

Lemma length_le32 z : length (le32 z) = 4%nat.
Proof. reflexivity. Qed.

(** A record of the probe decodes to its own fields. *)
Lemma binary_Read_wire_record e :
  length (data e) = 4000%nat → 0 ≤ type e < 2 ^ 32 → 0 ≤ data_len e < 2 ^ 32 →
  binary_Read (wire_record e) = Ok (decoded e).
Proof.
  intros Hd Ht Hl. unfold binary_Read, wire_record, record_size.
  assert (length (le32 (type e) ++ data e ++ le32 (data_len e)) = 4008%nat) as Hlen.
  { rewrite !length_app, !length_le32, Hd. reflexivity. }
  rewrite Hlen. rewrite decide_False by lia. rewrite decide_False by lia.
  unfold decoded. f_equal. f_equal.
  - rewrite take_app_length' by reflexivity. by apply le32_decode_le32.
  - rewrite drop_app_length' by reflexivity. by apply take_app_length'.
  - rewrite app_assoc, drop_app_length'
      by (rewrite length_app, length_le32, Hd; reflexivity).
    rewrite take_ge by (rewrite length_le32; lia). by apply le32_decode_le32.
Qed.

Lemma captured_event_fields ty skb k :
  length (data (captured_event ty skb k)) = 4000%nat
  ∧ 0 ≤ data_len (captured_event ty skb k) ≤ 4000
  ∧ type (captured_event ty skb k) = tc_type_val ty.
Proof.
  unfold captured_event. cbn [data data_len type].
  rewrite copy_bytes_length, length_resize.
  pose proof (Z.mod_pos_bound (frame_length skb k) (2 ^ 32) eq_refl).
  unfold MAX_DATA_SIZE. repeat split; destruct (_ <? 4000) eqn:?; lia.
Qed.

Lemma probe_record_fields V skb ty k st ev :
  http_events (capture_packets V skb ty k).2 = http_events k ++ [(st, ev)] →
  binary_Read (wire_record ev)
  = Ok {| ev_Type := tc_type_val ty; ev_Data := data ev; ev_DataLen := data_len ev |}
  ∧ 0 ≤ data_len ev ≤ 4000.
Proof.
  intros Hev. destruct (event_inv _ _ _ _ _ _ Hev) as (_ & _ & ->).
  destruct (captured_event_fields ty skb k) as (Hd & Hl & Ht).
  split; [|done].
  rewrite binary_Read_wire_record; [| done | rewrite Ht; by destruct ty | lia].
  unfold decoded. by rewrite Ht.
Qed.

(** X8. The record the probe submits and the decoding of the read loop
    agree: an event of the probe, laid out as the 4008-byte wire record,
    is decoded by [binary.Read] without error into the same direction code,
    the same 4000 payload bytes and the same length, which is at most
    4000. *)
Theorem probe_record_decodes V skb ty k st ev :
  http_events (capture_packets V skb ty k).2 = http_events k ++ [(st, ev)] →
  length (wire_record ev) = record_size
  ∧ binary_Read (wire_record ev)
    = Ok {| ev_Type := tc_type_val ty; ev_Data := data ev; ev_DataLen := data_len ev |}
  ∧ 0 ≤ data_len ev ≤ 4000.
Proof.
  intros Hev. destruct (event_inv _ _ _ _ _ _ Hev) as (_ & _ & ->).
  destruct (captured_event_fields ty skb k) as (Hd & Hl & Ht).
  split; [|split; [|done]].
  - unfold wire_record. rewrite !length_app, !length_le32, Hd. reflexivity.
  - rewrite binary_Read_wire_record; [| done | rewrite Ht; by destruct ty | lia].
    unfold decoded. by rewrite Ht.
Qed.

Lemma probe_record_decodes_witness :
  binary_Read (wire_record (captured_event Ingress (skb_of (http_frame 200)) idle_kernel))
  = Ok {| ev_Type := 1;
          ev_Data := data (captured_event Ingress (skb_of (http_frame 200)) idle_kernel);
          ev_DataLen := data_len (captured_event Ingress (skb_of (http_frame 200))
                                    idle_kernel) |}.
Proof.
  apply (probe_record_decodes linux_headers (skb_of (http_frame 200)) Ingress idle_kernel
           Committed).
  vm_compute. reflexivity.
Defined.

(** One record through the loop, the queue and the consumer, from a state
    in which the loop waits. *)
Lemma deliver_one mode s raw event r :
  waiting s → binary_Read raw = Ok event →
  exec mode [ReadLoop (ReadRecord raw); ReadLoop r; Consumer] s
  = if 4000 <? ev_DataLen event
    then halt PanicOther (set_loop AtRead (set_queue [event] false s))
    else set_consumer false (parsed s ++ [payload_slice event])
           (set_queue [] false (set_loop AtRead (set_queue [event] false s))).
Proof.
  intros (Hh & Hl & Hr & Hq & Hb & Hc) Hdec.
  destruct s as [qb qc st rc co lp cd ps lg hl]. cbn in Hh, Hl, Hr, Hq, Hb, Hc. subst.
  destruct hl as [e|]; [discriminate|]. clear Hh.
  unfold exec. cbn [foldl].
  assert (step mode (ReadLoop (ReadRecord raw))
            {| q_buf := []; q_closed := false; stopper := st; rd_closed := false;
               coordinator := co; loop := AtRead; consumer_done := false;
               parsed := ps; sys_logs := lg; halted := None |}
          = {| q_buf := []; q_closed := false; stopper := st; rd_closed := false;
               coordinator := co; loop := AtSend event; consumer_done := false;
               parsed := ps; sys_logs := lg; halted := None |}) as ->.
  { unfold step. cbn [finished halted loop].
    destruct mode; unfold runRingBuf_loop, runPerf_loop, rd_Read;
      cbn [loop rd_closed]; by rewrite Hdec. }
  assert (step mode (ReadLoop r)
            {| q_buf := []; q_closed := false; stopper := st; rd_closed := false;
               coordinator := co; loop := AtSend event; consumer_done := false;
               parsed := ps; sys_logs := lg; halted := None |}
          = {| q_buf := [event]; q_closed := false; stopper := st; rd_closed := false;
               coordinator := co; loop := AtRead; consumer_done := false;
               parsed := ps; sys_logs := lg; halted := None |}) as ->.
  { unfold step. cbn [finished halted loop]. by destruct mode. }
  unfold step, consumer_step. cbn [finished halted loop consumer_done q_buf].
  by destruct (4000 <? ev_DataLen event).
Qed.

(** X9. The read loop does not check the length field of a record: a record
    that decodes with [DataLen] above 4000 is queued like any other, and the
    consumer goroutine panics on the slice [task.Data[:task.DataLen]]. *)
Theorem oversize_length_panics_consumer mode s raw event r :
  waiting s → binary_Read raw = Ok event → 4000 < ev_DataLen event →
  let s' := exec mode [ReadLoop (ReadRecord raw); ReadLoop r; Consumer] s in
  halted s' = Some PanicOther ∧ parsed s' = parsed s ∧ sys_logs s' = sys_logs s.
Proof.
  intros Hs Hdec Hlen. cbn zeta. rewrite (deliver_one mode s raw event r Hs Hdec).
  rewrite (proj2 (Z.ltb_lt _ _) Hlen). done.
Qed.

Lemma oversize_length_panics_consumer_witness :
  halted (exec RingBuffer
            [ReadLoop (ReadRecord (replicate 4008 xff));
             ReadLoop (ReadRecord []); Consumer] sys_start)
  = Some PanicOther.
Proof.
  apply (oversize_length_panics_consumer RingBuffer sys_start (replicate 4008 xff)
           {| ev_Type := 4294967295; ev_Data := replicate 4000 xff;
              ev_DataLen := 4294967295 |} (ReadRecord [])).
  - repeat split.
  - vm_compute. reflexivity.
  - reflexivity.
Defined.

(** X10. From the hook to the parser: when the probe produces an event for
    a frame and the read loop receives its record, the consumer hands
    [parseHttp] exactly the first [min(frame_length, 4000)] bytes of the
    frame, and nothing panics. The loop waits in [rd.Read()] with the queue
    empty when the record arrives. *)
Theorem parser_receives_frame_prefix V skb ty k st ev mode s r :
  skb_len skb < 2 ^ 32 →
  http_events (capture_packets V skb ty k).2 = http_events k ++ [(st, ev)] →
  waiting s →
  let s' := exec mode [ReadLoop (ReadRecord (wire_record ev)); ReadLoop r; Consumer] s in
  parsed s' = parsed s ++ [take (Z.to_nat (Z.min (frame_length skb k) 4000)) (frame skb k)]
  ∧ halted s' = None
  ∧ q_buf s' = [].
Proof.
  intros Hlen Hev Hs. cbn zeta.
  destruct (probe_record_fields _ _ _ _ _ _ Hev) as (Hdec & Hle).
  rewrite (deliver_one mode s _ _ r Hs Hdec). cbn [ev_DataLen].
  destruct (Z.ltb_spec 4000 (data_len ev)); [lia|].
  destruct Hs as (Hh & _). unfold finished in Hh.
  cbn [parsed halted q_buf set_consumer set_queue set_loop].
  split; [|split; [by destruct (halted s)|done]].
  f_equal. f_equal. unfold payload_slice. cbn [ev_DataLen ev_Data].
  destruct (event_inv _ _ _ _ _ _ Hev) as (_ & _ & ->).
  rewrite (captured_data_len _ _ _ Hlen).
  pose proof (frame_length_eq skb k).
  unfold captured_event. cbn [data].
  apply copy_bytes_prefix; [apply length_resize| |]; unfold MAX_DATA_SIZE; lia.
Qed.

Lemma parser_receives_frame_prefix_witness :
  parsed (exec PerfBuffer
            [ReadLoop (ReadRecord
               (wire_record (captured_event Egress (skb_of (http_frame 120)) idle_kernel)));
             ReadLoop (ReadRecord []); Consumer] sys_start)
  = [take 120 (frame (skb_of (http_frame 120)) idle_kernel)].
Proof.
  apply (parser_receives_frame_prefix linux_headers (skb_of (http_frame 120)) Egress
           idle_kernel Committed
           (captured_event Egress (skb_of (http_frame 120)) idle_kernel) PerfBuffer
           sys_start (ReadRecord [])).
  - vm_compute. reflexivity.
  - vm_compute. reflexivity.
  - repeat split.
Defined.

(** *** Attachment and its failures *)

(** X11. [attachTC] installs the filter or leaves the filters alone: when it
    returns a filter, that filter is in the table under (interface, parent,
    priority 1, handle 1), in direct-action mode, for all protocols, bound
    to the program, the clsact qdisc is installed and no other filter has
    changed; when it returns an error, the table of filters is as before,
    and the error wraps the one netlink returned: if the qdisc call failed
    no filter call was made and the qdiscs are as before, if the filter call
    failed the qdisc stays installed. *)
Theorem attachTC_installs_or_leaves fault link fd name parent w :
  match attachTC fault link fd name parent w with
  | (Ok f, w') =>
      tc_filters w' = <[(link_Index link, parent, 1, 1) := f]> (tc_filters w)
      ∧ f_DirectAction f = true ∧ f_Protocol f = ETH_P_ALL ∧ f_Fd f = fd
      ∧ f_Name f = name +:+ "-" +:+ link_Name link
      ∧ (∃ q, tc_qdiscs w' !! (link_Index link, HANDLE_CLSACT) = Some q
              ∧ q_QdiscType q = "clsact")
      ∧ nl_calls w' = nl_calls w ++ [(NlQdiscReplace (link_Index link, HANDLE_CLSACT), None);
                                     (NlFilterReplace (link_Index link, parent, 1, 1), None)]
  | (Err e, w') =>
      tc_filters w' = tc_filters w
      ∧ ((∃ e0, e = ErrWrap ("replacing clsact qdisc for interface " +:+ link_Name link) e0
                ∧ tc_qdiscs w' = tc_qdiscs w
                ∧ nl_calls w' = nl_calls w
                    ++ [(NlQdiscReplace (link_Index link, HANDLE_CLSACT), Some e0)])
         ∨ (∃ e0, e = ErrWrap "replacing tc filter" e0
                  ∧ is_Some (tc_qdiscs w' !! (link_Index link, HANDLE_CLSACT))
                  ∧ nl_calls w' = nl_calls w
                      ++ [(NlQdiscReplace (link_Index link, HANDLE_CLSACT), None);
                          (NlFilterReplace (link_Index link, parent, 1, 1), Some e0)]))
  end.
Proof.
  unfold attachTC, replaceQdisc, QdiscReplace, FilterReplace. cbn.
  destruct (fault (length (nl_calls w))) as [e0|]; cbn.
  { split; [done|]. left. by exists e0. }
  destruct (fault _) as [e0|]; cbn.
  { split; [done|]. right. exists e0. rewrite lookup_insert_eq, <- app_assoc. eauto. }
  rewrite lookup_insert_eq. cbn. rewrite lookup_insert_eq, <- app_assoc.
  repeat split. eauto.
Qed.

(** The three ways [attachTC] can go, by what netlink answers. *)
Lemma attachTC_qdisc_fails fault link fd name parent w e0 :
  fault (length (nl_calls w)) = Some e0 →
  attachTC fault link fd name parent w
  = (Err (ErrWrap ("replacing clsact qdisc for interface " +:+ link_Name link) e0),
     set_tc (tc_qdiscs w) (tc_filters w)
       (NlQdiscReplace (link_Index link, HANDLE_CLSACT), Some e0) w).
Proof.
  intros Hf. unfold attachTC, replaceQdisc, QdiscReplace. cbn. by rewrite Hf.
Qed.

Lemma attachTC_filter_fails fault link fd name parent w e0 :
  fault (length (nl_calls w)) = None → fault (S (length (nl_calls w))) = Some e0 →
  ∃ w', attachTC fault link fd name parent w = (Err (ErrWrap "replacing tc filter" e0), w')
        ∧ tc_filters w' = tc_filters w
        ∧ length (nl_calls w') = S (S (length (nl_calls w)))
        ∧ Forall (λ c, is_filter_del c = false) (drop (length (nl_calls w)) (nl_calls w')).
Proof.
  intros Hq Hf. unfold attachTC, replaceQdisc, QdiscReplace, FilterReplace. cbn.
  rewrite Hq. cbn. rewrite length_app. cbn. rewrite Nat.add_1_r, Hf.
  eexists. split; [done|]. cbn. rewrite <- app_assoc, drop_app_length, !length_app.
  cbn. repeat split; [lia|]. by repeat constructor.
Qed.

Lemma attachTC_succeeds fault link fd name parent w :
  fault (length (nl_calls w)) = None → fault (S (length (nl_calls w))) = None →
  ∃ f w', attachTC fault link fd name parent w = (Ok f, w')
        ∧ tc_filters w' = <[(link_Index link, parent, 1, 1) := f]> (tc_filters w)
        ∧ length (nl_calls w') = S (S (length (nl_calls w))).
Proof.
  intros Hq Hf. unfold attachTC, replaceQdisc, QdiscReplace, FilterReplace. cbn.
  rewrite Hq. cbn. rewrite length_app. cbn. rewrite Nat.add_1_r, Hf.
  rewrite lookup_insert_eq. do 2 eexists. split; [done|]. cbn.
  rewrite !length_app. cbn. split; [done|lia].
Qed.

Lemma min_handles_differ (idx : Z) :
  (idx, HANDLE_MIN_INGRESS, 1, 1) ≠ (idx, HANDLE_MIN_EGRESS, 1, 1).
Proof. unfold HANDLE_MIN_INGRESS, HANDLE_MIN_EGRESS. intros [= H]. Qed.

Lemma both_filters_installed_at E iface mode w w1 :
  attach_both E iface mode w = (Val (), w1) →
  ∃ link,
    LinkByIndex E (link_Index iface) = Ok link
    ∧ tc_filters w1 !! (link_Index link, HANDLE_MIN_INGRESS, 1, 1)
      = Some {| f_LinkIndex := link_Index link; f_Parent := HANDLE_MIN_INGRESS;
                f_Handle := 1; f_Protocol := ETH_P_ALL; f_Priority := 1;
                f_Fd := IngressClsFunc E;
                f_Name := "classifier/ingress" +:+ "-" +:+ link_Name link;
                f_DirectAction := true |}
    ∧ tc_filters w1 !! (link_Index link, HANDLE_MIN_EGRESS, 1, 1)
      = Some {| f_LinkIndex := link_Index link; f_Parent := HANDLE_MIN_EGRESS;
                f_Handle := 1; f_Protocol := ETH_P_ALL; f_Priority := 1;
                f_Fd := EgressClsFunc E;
                f_Name := "classifier/egress" +:+ "-" +:+ link_Name link;
                f_DirectAction := true |}.
Proof.
  unfold attach_both, mbind, M_bind, act, call, defer_, log_Fatalf. cbn.
  destruct (loadObjects E); [discriminate|]. cbn.
  destruct (LinkByIndex E (link_Index iface)) as [link|err]; [|discriminate]. cbn.
  match goal with |- context [attachTC ?f ?l ?fd ?n ?p ?w0] =>
    pose proof (attachTC_ok f l fd n p w0) as Hok;
    destruct (attachTC f l fd n p w0) as [[fI|e] wI] end; cbn in *; [|discriminate].
  destruct (Hok _ _ eq_refl) as (HfI & _ & HtI).
  match goal with |- context [attachTC ?f ?l ?fd ?n ?p ?w0] =>
    pose proof (attachTC_ok f l fd n p w0) as Hok2;
    destruct (attachTC f l fd n p w0) as [[fE|e] wE] end; cbn in *; [|discriminate].
  destruct (Hok2 _ _ eq_refl) as (HfE & _ & HtE).
  intros [= <-]. exists link. cbn. rewrite HtE, HtI. cbn in *.
  split; [done|]. split.
  { rewrite lookup_insert_ne by (apply not_eq_sym, min_handles_differ).
    by rewrite lookup_insert_eq, HfI. }
  by rewrite lookup_insert_eq, HfE.
Qed.

(** X12. When [main] has attached both classifiers, the ingress filter and
    the egress filter are both installed on the interface, each bound to its
    own program and named after its section and the interface; attaching
    the egress filter does not disturb the ingress filter, and no other
    filter of the host is changed. *)
Theorem both_filters_installed E iface mode w w1 :
  attach_both E iface mode w = (Val (), w1) →
  ∃ link,
    LinkByIndex E (link_Index iface) = Ok link
    ∧ tc_filters w1 !! (link_Index link, HANDLE_MIN_INGRESS, 1, 1)
      = Some {| f_LinkIndex := link_Index link; f_Parent := HANDLE_MIN_INGRESS;
                f_Handle := 1; f_Protocol := ETH_P_ALL; f_Priority := 1;
                f_Fd := IngressClsFunc E;
                f_Name := "classifier/ingress" +:+ "-" +:+ link_Name link;
                f_DirectAction := true |}
    ∧ tc_filters w1 !! (link_Index link, HANDLE_MIN_EGRESS, 1, 1)
      = Some {| f_LinkIndex := link_Index link; f_Parent := HANDLE_MIN_EGRESS;
                f_Handle := 1; f_Protocol := ETH_P_ALL; f_Priority := 1;
                f_Fd := EgressClsFunc E;
                f_Name := "classifier/egress" +:+ "-" +:+ link_Name link;
                f_DirectAction := true |}
    ∧ is_Some (tc_qdiscs w1 !! (link_Index link, HANDLE_CLSACT))
    ∧ ∀ k, k ≠ (link_Index link, HANDLE_MIN_INGRESS, 1, 1) →
           k ≠ (link_Index link, HANDLE_MIN_EGRESS, 1, 1) →
           tc_filters w1 !! k = tc_filters w !! k.
Proof.
  unfold attach_both, mbind, M_bind, act, call, defer_, log_Fatalf. cbn.
  destruct (loadObjects E); [discriminate|]. cbn.
  destruct (LinkByIndex E (link_Index iface)) as [link|err]; [|discriminate]. cbn.
  match goal with |- context [attachTC ?f ?l ?fd ?n ?p ?w0] =>
    pose proof (attachTC_ok f l fd n p w0) as Hok;
    destruct (attachTC f l fd n p w0) as [[fI|e] wI] end; cbn in *; [|discriminate].
  destruct (Hok _ _ eq_refl) as (HfI & _ & HtI).
  match goal with |- context [attachTC ?f ?l ?fd ?n ?p ?w0] =>
    pose proof (attachTC_ok f l fd n p w0) as Hok2;
    destruct (attachTC f l fd n p w0) as [[fE|e] wE] end; cbn in *; [|discriminate].
  destruct (Hok2 _ _ eq_refl) as (HfE & [q Hq] & HtE).
  intros [= <-]. exists link. cbn. rewrite HtE, HtI, Hq. cbn in *.
  split; [done|]. split.
  { rewrite lookup_insert_ne by (apply not_eq_sym, min_handles_differ).
    by rewrite lookup_insert_eq, HfI. }
  split; [by rewrite lookup_insert_eq, HfE|].
  split; [rewrite lookup_insert_eq; eauto|].
  intros k HkI HkE. by rewrite !lookup_insert_ne.
Qed.

Lemma both_filters_installed_witness :
  ∃ link,
    LinkByIndex (host 600 no_fault None []) (link_Index lo) = Ok link
    ∧ tc_filters (attach_both (host 600 no_fault None []) lo RingBuffer
                    (world_start (host 600 no_fault None []))).2
        !! (link_Index link, HANDLE_MIN_INGRESS, 1, 1)
      = Some {| f_LinkIndex := link_Index link; f_Parent := HANDLE_MIN_INGRESS;
                f_Handle := 1; f_Protocol := ETH_P_ALL; f_Priority := 1;
                f_Fd := 7; f_Name := "classifier/ingress" +:+ "-" +:+ link_Name link;
                f_DirectAction := true |}.
Proof.
  destruct (both_filters_installed (host 600 no_fault None []) lo RingBuffer
              (world_start (host 600 no_fault None []))
              (attach_both (host 600 no_fault None []) lo RingBuffer
                 (world_start (host 600 no_fault None []))).2)
    as (link & Hlink & HI & _).
  - vm_compute. reflexivity.
  - exists link. split; [exact Hlink | exact HI].
Defined.

(** *** Exits of the process *)

(** [attach_both] stops at the loading of the objects or at the lookup of
    the link before any netlink call. *)
Lemma attach_both_early E iface mode w :
  (∃ e, loadObjects E = Some e) ∨ (∃ e, LinkByIndex E (link_Index iface) = Err e) →
  ∃ w1, attach_both E iface mode w = (Stop Fatal, w1)
        ∧ nl_calls w1 = nl_calls w ∧ tc_filters w1 = tc_filters w
        ∧ tc_qdiscs w1 = tc_qdiscs w ∧ logs w1 ≠ [].
Proof.
  intros Hfail. unfold attach_both, mbind, M_bind, act, call, defer_, log_Fatalf. cbn.
  destruct (loadObjects E) as [e|] eqn:Hload.
  { eexists. split; [done|]. cbn. repeat split. by destruct (logs w). }
  destruct Hfail as [[e He]|[e He]]; [discriminate|]. rewrite He. cbn.
  eexists. split; [done|]. cbn. repeat split. by destruct (logs w).
Qed.

Lemma branch_stops E iface maxK v w w1 e :
  attach_both E iface (if isMaxKernelVer maxK v then RingBuffer else PerfBuffer) w
  = (Stop e, w1) →
  ((if isMaxKernelVer maxK v then ringbuf_branch E iface else perf_branch E iface);;
   act (log_Printf "Received signal, exiting TC program..")) w = (Stop e, w1).
Proof.
  intros Ha. unfold mbind, M_bind.
  destruct (isMaxKernelVer maxK v); unfold ringbuf_branch, perf_branch, mbind, M_bind;
    by rewrite Ha.
Qed.

(** X13. The process fails fast before it touches the host: with no
    interface name, an unknown interface, an unreadable or too old kernel
    version, probe objects that do not load or a link that cannot be found,
    it logs a fatal line and exits without a single netlink call, the
    qdiscs and filters of the host being what they were. *)
Theorem startup_failure_leaves_host_untouched minK maxK E :
  String.length (InterfaceName E) = 0%nat
  ∨ (∃ e, InterfaceByName E = Err e)
  ∨ (∃ e, GetKernelVersion E = Err e)
  ∨ (∃ v, GetKernelVersion E = Ok v ∧ v < minK)
  ∨ (∃ e, loadObjects E = Some e)
  ∨ (∃ iface e, InterfaceByName E = Ok iface ∧ LinkByIndex E (link_Index iface) = Err e) →
  (main minK maxK E).1 = Stopped Fatal
  ∧ nl_calls (main minK maxK E).2 = []
  ∧ tc_filters (main minK maxK E).2 = host_filters E
  ∧ tc_qdiscs (main minK maxK E).2 = host_qdiscs E
  ∧ logs (main minK maxK E).2 ≠ [].
Proof.
  intros Hfail.
  assert (∃ w, main_body minK maxK E (world_start E) = (Stop Fatal, w)
               ∧ nl_calls w = [] ∧ tc_filters w = host_filters E
               ∧ tc_qdiscs w = host_qdiscs E ∧ logs w ≠ []) as (w & Hbody & Hw).
  { unfold main_body.
    case_decide as Hname; [by eexists|].
    destruct (InterfaceByName E) as [iface|e0] eqn:Hif; [|by eexists].
    destruct (GetKernelVersion E) as [v|e0] eqn:Hver; [|by eexists].
    unfold isMinKernelVer. destruct (Z.leb_spec minK v) as [Hmin|Hmin]; [|by eexists].
    cbn [negb]. unfold mbind at 1 2. unfold M_bind at 1 2. cbn [act].
    set (w0 := add_logs (banner iface v) (note_kver_read (world_start E))).
    assert ((∃ e, loadObjects E = Some e)
            ∨ (∃ e, LinkByIndex E (link_Index iface) = Err e)) as Hearly.
    { destruct Hfail as [?|[[? ?]|[[? ?]|[(v' & ? & ?)|[?|(i & e0 & ? & ?)]]]]];
        try done; try (simplify_eq; lia); [by left|]. right. simplify_eq. eauto. }
    destruct (attach_both_early E iface
                (if isMaxKernelVer maxK v then RingBuffer else PerfBuffer) w0 Hearly)
      as (w1 & Ha & Hn & Hf & Hq & Hl).
    rewrite (branch_stops _ _ _ _ _ _ _ Ha). exists w1. by rewrite Hn, Hf, Hq. }
  unfold main. rewrite Hbody. done.
Qed.

Lemma startup_failure_leaves_host_untouched_witness :
  (main 500 580 (host 419 no_fault None quiet_schedule)).1 = Stopped Fatal
  ∧ nl_calls (main 500 580 (host 419 no_fault None quiet_schedule)).2 = [].
Proof.
  destruct (startup_failure_leaves_host_untouched 500 580
              (host 419 no_fault None quiet_schedule)) as (H1 & H2 & _).
  - do 3 right. left. exists 419. split; [reflexivity|lia].
  - split; [exact H1 | exact H2].
Defined.

(** The body of [main] never calls [netlink.FilterDel]: the deletions are
    deferred calls only. *)
Lemma quiet_bind {A B} (m : M A) (f : A → M B) :
  quiet m → (∀ a, quiet (f a)) → quiet (m ≫= f).
Proof.
  intros Hm Hf w Hw. unfold mbind, M_bind. specialize (Hm w Hw).
  destruct (m w) as [[a|e] w1]; cbn in *; [by apply Hf|done].
Qed.

Lemma quiet_act (f : world → world) :
  (∀ w, nl_calls (f w) = nl_calls w) → quiet (act f).
Proof. intros Hf w Hw. unfold no_del, act. cbn. by rewrite Hf. Qed.

Lemma quiet_fatal {A} msg : quiet (log_Fatalf (A:=A) msg).
Proof. by intros w Hw. Qed.

Lemma quiet_attachTC fault link fd name parent :
  quiet (call (attachTC fault link fd name parent)).
Proof.
  intros w Hw. unfold call, no_del in *. cbn [snd].
  pose proof (attachTC_installs_or_leaves fault link fd name parent w) as H.
  destruct (attachTC fault link fd name parent w) as [[f|e] w']; cbn [snd].
  - destruct H as (_ & _ & _ & _ & _ & _ & ->). apply Forall_app. split; [done|].
    by repeat constructor.
  - destruct H as (_ & [(e0 & _ & _ & ->)|(e0 & _ & _ & ->)]);
      apply Forall_app; (split; [done|]); by repeat constructor.
Qed.

Lemma quiet_run_loop E mode : quiet (run_loop E mode).
Proof.
  intros w Hw. unfold no_del in *.
  destruct (run_loop_frame E mode w) as (_ & _ & _ & -> & _). done.
Qed.

Lemma quiet_attach_both E iface mode : quiet (attach_both E iface mode).
Proof.
  unfold attach_both. apply quiet_bind; [by apply quiet_act|]. intros _.
  destruct (loadObjects E); [apply quiet_fatal|].
  apply quiet_bind; [by apply quiet_act|]. intros _.
  destruct (LinkByIndex E (link_Index iface)); [|apply quiet_fatal].
  apply quiet_bind; [apply quiet_attachTC|]. intros [fI|e]; [|apply quiet_fatal].
  apply quiet_bind; [by apply quiet_act|]. intros _.
  apply quiet_bind; [apply quiet_attachTC|]. intros [fE|e]; [|apply quiet_fatal].
  by apply quiet_act.
Qed.

Lemma quiet_main_body minK maxK E : quiet (main_body minK maxK E).
Proof.
  unfold main_body. case_decide; [apply quiet_fatal|].
  destruct (InterfaceByName E) as [iface|]; [|apply quiet_fatal].
  apply quiet_bind; [by apply quiet_act|]. intros _.
  destruct (GetKernelVersion E) as [v|]; [|apply quiet_fatal].
  destruct (negb _); [apply quiet_fatal|].
  apply quiet_bind; [by apply quiet_act|]. intros _.
  apply quiet_bind; [|intros _; by apply quiet_act].
  destruct (isMaxKernelVer maxK v).
  - unfold ringbuf_branch. apply quiet_bind; [apply quiet_attach_both|]. intros _.
    destruct (NewReader E); [apply quiet_fatal|].
    unfold runRingBuf. apply quiet_bind; [by apply quiet_act|]. intros _.
    destruct (OpenFile E); [apply quiet_fatal|apply quiet_run_loop].
  - unfold perf_branch. apply quiet_bind; [apply quiet_attach_both|]. intros _.
    destruct (NewReader E); [apply quiet_fatal|].
    apply quiet_bind; [by apply quiet_act|]. intros _.
    unfold runPerf. apply quiet_bind; [by apply quiet_act|]. intros _.
    destruct (OpenFile E); [apply quiet_fatal|apply quiet_run_loop].
Qed.

(** X14. Filters are deleted by the deferred calls of [main] and nowhere
    else: when the process ends otherwise than by [main] returning or the
    main goroutine panicking (an exit through [log.Fatal], a panic of another
    goroutine, or a process still running), it has made no
    [netlink.FilterDel] call. *)
Theorem no_deletion_without_deferred_calls minK maxK E e :
  (main minK maxK E).1 = Stopped e → e ≠ PanicMain →
  Forall (λ c, is_filter_del c = false) (nl_calls (main minK maxK E).2).
Proof.
  intros Hexit Hne.
  pose proof (quiet_main_body minK maxK E (world_start E)) as Hq.
  revert Hexit Hq. unfold main.
  destruct (main_body minK maxK E (world_start E)) as [[[]|e'] w]; [discriminate|].
  destruct e'; cbn; intros [= <-] Hq; try done; by apply Hq, Forall_nil.
Qed.

Lemma no_deletion_without_deferred_calls_witness :
  Forall (λ c, is_filter_del c = false)
    (nl_calls (main 500 580 (host 600 no_fault (Some (ErrOther "locked")) [])).2).
Proof.
  apply (no_deletion_without_deferred_calls 500 580
           (host 600 no_fault (Some (ErrOther "locked")) []) Fatal).
  - vm_compute. reflexivity.
  - discriminate.
Defined.

(** The body of [main] on a supported kernel. *)
Lemma main_body_supported minK maxK E iface v :
  String.length (InterfaceName E) ≠ 0%nat → InterfaceByName E = Ok iface →
  GetKernelVersion E = Ok v → minK ≤ v →
  main_body minK maxK E (world_start E)
  = ((if isMaxKernelVer maxK v then ringbuf_branch E iface else perf_branch E iface);;
     act (log_Printf "Received signal, exiting TC program.."))
      (add_logs (banner iface v) (note_kver_read (world_start E))).
Proof.
  intros Hname Hif Hver Hmin. unfold main_body.
  rewrite Hif, Hver, decide_False by done.
  unfold isMinKernelVer. by rewrite (proj2 (Z.leb_le minK v) Hmin).
Qed.

(** The attachment when netlink answers no error to its four calls. *)
Lemma attach_both_succeeds E iface mode w link :
  loadObjects E = None → LinkByIndex E (link_Index iface) = Ok link →
  (∀ i, (i < 4)%nat → nl_fault E (length (nl_calls w) + i) = None) →
  ∃ w1, attach_both E iface mode w = (Val (), w1).
Proof.
  intros Hload Hlink Hfault.
  unfold attach_both, mbind, M_bind, act, call, defer_, log_Fatalf. cbn.
  rewrite Hload. cbn. rewrite Hlink. cbn.
  match goal with |- context [attachTC ?f ?l ?fd ?n ?p ?w0] =>
    destruct (attachTC_succeeds f l fd n p w0) as (fI & wI & -> & _ & HnI) end.
  { cbn. rewrite <- (Nat.add_0_r (length _)). apply Hfault; lia. }
  { cbn. rewrite <- Nat.add_1_r. apply Hfault; lia. }
  cbn in *.
  match goal with |- context [attachTC ?f ?l ?fd ?n ?p ?w0] =>
    destruct (attachTC_succeeds f l fd n p w0) as (fE & wE & -> & _ & HnE) end.
  { cbn. rewrite HnI. replace (S (S (length (nl_calls w)))) with (length (nl_calls w) + 2)%nat
      by lia. apply Hfault; lia. }
  { cbn. rewrite HnI. replace (S (S (S (length (nl_calls w)))))
      with (length (nl_calls w) + 3)%nat by lia. apply Hfault; lia. }
  cbn. eauto.
Qed.

(** After the attachment the body of [main] changes no filter. *)
Lemma branch_keeps_filters E iface maxK v w w1 :
  attach_both E iface (if isMaxKernelVer maxK v then RingBuffer else PerfBuffer) w
  = (Val (), w1) →
  tc_filters (((if isMaxKernelVer maxK v then ringbuf_branch E iface
                else perf_branch E iface);;
               act (log_Printf "Received signal, exiting TC program..")) w).2
  = tc_filters w1.
Proof.
  intros Ha. unfold mbind at 1. unfold M_bind at 1.
  destruct (isMaxKernelVer maxK v).
  - unfold ringbuf_branch, mbind, M_bind. rewrite Ha.
    destruct (NewReader E); [done|].
    unfold runRingBuf, mbind, M_bind, act. destruct (OpenFile E); [done|].
    match goal with |- context [run_loop E ?md ?wl] =>
      destruct (run_loop_frame E md wl) as (_ & _ & _ & _ & Hf);
      destruct (run_loop E md wl) as [[[]|e] w2] end; cbn in *; by rewrite Hf.
  - unfold perf_branch, mbind, M_bind. rewrite Ha.
    destruct (NewReader E); [done|].
    unfold runPerf, mbind, M_bind, act, defer_. cbn. destruct (OpenFile E); [done|].
    match goal with |- context [run_loop E ?md ?wl] =>
      destruct (run_loop_frame E md wl) as (_ & _ & _ & _ & Hf);
      destruct (run_loop E md wl) as [[[]|e] w2] end; cbn in *; by rewrite Hf.
Qed.

(** X15. Once both filters are attached, every end of the process other
    than the return of [main] or a panic of the main goroutine leaves both
    filters installed on the interface: a failure to open the reader or the
    database, a failure of [rd.Close()], a panic of the consumer, and a
    process that is still running. *)
Theorem filters_stay_on_other_exits minK maxK E iface v link e :
  String.length (InterfaceName E) ≠ 0%nat → InterfaceByName E = Ok iface →
  GetKernelVersion E = Ok v → minK ≤ v →
  loadObjects E = None → LinkByIndex E (link_Index iface) = Ok link →
  (∀ i, (i < 4)%nat → nl_fault E i = None) →
  (main minK maxK E).1 = Stopped e → e ≠ PanicMain →
  (∃ fI, tc_filters (main minK maxK E).2 !! (link_Index link, HANDLE_MIN_INGRESS, 1, 1)
         = Some fI ∧ f_Fd fI = IngressClsFunc E)
  ∧ (∃ fE, tc_filters (main minK maxK E).2 !! (link_Index link, HANDLE_MIN_EGRESS, 1, 1)
           = Some fE ∧ f_Fd fE = EgressClsFunc E).
Proof.
  intros Hname Hif Hver Hmin Hload Hlink Hfault Hexit Hne.
  pose proof (main_body_supported minK maxK E iface v Hname Hif Hver Hmin) as Hbody.
  set (w0 := add_logs (banner iface v) (note_kver_read (world_start E))) in *.
  destruct (attach_both_succeeds E iface
              (if isMaxKernelVer maxK v then RingBuffer else PerfBuffer) w0 link
              Hload Hlink Hfault) as (w1 & Ha).
  pose proof (branch_keeps_filters E iface maxK v w0 w1 Ha) as Hkeep.
  rewrite <- Hbody in Hkeep.
  assert (tc_filters (main minK maxK E).2 = tc_filters w1) as ->.
  { revert Hexit Hkeep. unfold main.
    destruct (main_body minK maxK E (world_start E)) as [[[]|e'] w]; [discriminate|].
    destruct e'; cbn; intros [= <-]; done. }
  destruct (both_filters_installed_at E iface _ w0 w1 Ha) as (link' & Hlink' & HI & HE).
  rewrite Hlink in Hlink'. simplify_eq. rewrite HI, HE.
  split; eexists; (split; [reflexivity|done]).
Qed.

Lemma filters_stay_on_other_exits_witness :
  (∃ fI, tc_filters (main 500 580 (host 600 no_fault (Some (ErrOther "locked")) [])).2
           !! (link_Index lo, HANDLE_MIN_INGRESS, 1, 1) = Some fI ∧ f_Fd fI = 7)
  ∧ (∃ fE, tc_filters (main 500 580 (host 600 no_fault (Some (ErrOther "locked")) [])).2
             !! (link_Index lo, HANDLE_MIN_EGRESS, 1, 1) = Some fE ∧ f_Fd fE = 8).
Proof.
  apply (filters_stay_on_other_exits 500 580
           (host 600 no_fault (Some (ErrOther "locked")) []) lo 600 lo Fatal);
    try (vm_compute; reflexivity); try lia; discriminate.
Defined.

(** The attachment when the egress filter cannot be attached. *)
Lemma attach_both_egress_fails E iface mode w link e :
  loadObjects E = None → LinkByIndex E (link_Index iface) = Ok link →
  nl_fault E (length (nl_calls w)) = None →
  nl_fault E (S (length (nl_calls w))) = None →
  nl_fault E (S (S (length (nl_calls w)))) = Some e
  ∨ (nl_fault E (S (S (length (nl_calls w)))) = None
     ∧ nl_fault E (S (S (S (length (nl_calls w))))) = Some e) →
  ∃ w1 fI,
    attach_both E iface mode w = (Stop Fatal, w1)
    ∧ tc_filters w1 = <[(link_Index link, HANDLE_MIN_INGRESS, 1, 1) := fI]> (tc_filters w)
    ∧ f_Fd fI = IngressClsFunc E
    ∧ deferred w1 = DeferFilterDel fI :: DeferClose Objs :: deferred w.
Proof.
  intros Hload Hlink H0 H1 H23.
  unfold attach_both, mbind, M_bind, act, call, defer_, log_Fatalf. cbn.
  rewrite Hload. cbn. rewrite Hlink. cbn.
  match goal with |- context [attachTC ?f ?l ?fd ?n ?p ?w0] =>
    pose proof (attachTC_frame f l fd n p w0) as (_ & _ & _ & HdI & _);
    pose proof (attachTC_ok f l fd n p w0) as HokI;
    destruct (attachTC_succeeds f l fd n p w0) as (fI & wI & HI & HtI & HnI) end;
    [done|done|].
  rewrite HI in HdI, HokI |- *. cbn [fst snd] in *.
  destruct (HokI _ _ eq_refl) as (HfI & _). clear HokI HI.
  cbn [nl_calls tc_filters deferred set_deferred note_load] in HnI, HtI, HdI.
  destruct H23 as [H2|[H2 H3]].
  - match goal with |- context [attachTC ?f ?l ?fd ?n ?p ?w0] =>
      rewrite (attachTC_qdisc_fails f l fd n p w0 e)
        by (cbn [nl_calls set_deferred]; by rewrite HnI) end.
    cbn. eexists. exists fI. split; [reflexivity|]. cbn. by rewrite HtI, HdI, HfI.
  - match goal with |- context [attachTC ?f ?l ?fd ?n ?p ?w0] =>
      pose proof (attachTC_frame f l fd n p w0) as (_ & _ & _ & HdE & _);
      destruct (attachTC_filter_fails f l fd n p w0 e) as (wE & HE & HtE & _) end;
      [cbn [nl_calls set_deferred]; by rewrite HnI
      |cbn [nl_calls set_deferred]; by rewrite HnI|].
    rewrite HE in HdE |- *. cbn [fst snd] in *. cbn.
    eexists. exists fI. split; [reflexivity|]. cbn.
    cbn [tc_filters deferred set_deferred] in HtE, HdE.
    by rewrite HtE, HtI, HdE, HdI, HfI.
Qed.

(** X16. When the ingress filter is attached and the egress filter cannot
    be, the process exits through [log.Fatalf] and leaves the ingress filter
    installed: its deletion was deferred, and the deferred calls do not run;
    the egress side of the interface is as it was. *)
Theorem egress_failure_leaves_ingress_filter minK maxK E iface v link e :
  String.length (InterfaceName E) ≠ 0%nat → InterfaceByName E = Ok iface →
  GetKernelVersion E = Ok v → minK ≤ v →
  loadObjects E = None → LinkByIndex E (link_Index iface) = Ok link →
  nl_fault E 0 = None → nl_fault E 1 = None →
  nl_fault E 2 = Some e ∨ (nl_fault E 2 = None ∧ nl_fault E 3 = Some e) →
  (main minK maxK E).1 = Stopped Fatal
  ∧ (∃ fI, tc_filters (main minK maxK E).2 !! (link_Index link, HANDLE_MIN_INGRESS, 1, 1)
           = Some fI ∧ f_Fd fI = IngressClsFunc E)
  ∧ tc_filters (main minK maxK E).2 !! (link_Index link, HANDLE_MIN_EGRESS, 1, 1)
    = host_filters E !! (link_Index link, HANDLE_MIN_EGRESS, 1, 1)
  ∧ deferred (main minK maxK E).2 ≠ [].
Proof.
  intros Hname Hif Hver Hmin Hload Hlink H0 H1 H23.
  pose proof (main_body_supported minK maxK E iface v Hname Hif Hver Hmin) as Hbody.
  set (w0 := add_logs (banner iface v) (note_kver_read (world_start E))) in *.
  destruct (attach_both_egress_fails E iface
              (if isMaxKernelVer maxK v then RingBuffer else PerfBuffer) w0 link e
              Hload Hlink H0 H1 H23) as (w1 & fI & Ha & Ht & Hfd & Hd).
  rewrite (branch_stops _ _ _ _ _ _ _ Ha) in Hbody.
  unfold main. rewrite Hbody. cbn [fst snd]. rewrite Ht, Hd.
  split; [done|]. split; [exists fI; by rewrite lookup_insert_eq|]. split; [|done].
  by rewrite lookup_insert_ne by apply min_handles_differ.
Qed.

Lemma egress_failure_leaves_ingress_filter_witness :
  (main 500 580
     (host 600 (λ n, if decide (n = 3)%nat then Some (ErrOther "no memory") else None)
        None quiet_schedule)).1 = Stopped Fatal.
Proof.
  apply (egress_failure_leaves_ingress_filter 500 580
           (host 600 (λ n, if decide (n = 3)%nat then Some (ErrOther "no memory") else None)
              None quiet_schedule) lo 600 lo (ErrOther "no memory"));
    try done; try lia.
  right. done.
Defined.

(** [attach_both] stops through [log.Fatalf] only. *)
Lemma attach_both_stop E iface mode w w1 e :
  attach_both E iface mode w = (Stop e, w1) → e = Fatal.
Proof.
  unfold attach_both, mbind, M_bind, act, call, defer_, log_Fatalf. cbn.
  destruct (loadObjects E); [by intros [= <- _]|]. cbn.
  destruct (LinkByIndex E (link_Index iface)); [|by intros [= <- _]]. cbn.
  destruct (attachTC _ _ _ _ _ _) as [[fI|e1] wI]; cbn; [|by intros [= <- _]].
  destruct (attachTC _ _ _ _ _ _) as [[fE|e1] wE]; cbn; [discriminate|by intros [= <- _]].
Qed.

(** When the main goroutine panics, the deferred calls of [main] are those
    of the attachment, as when it returns. *)
Lemma main_body_panic minK maxK E w :
  main_body minK maxK E (world_start E) = (Stop PanicMain, w) →
  ∃ iface link fI fE pre,
    InterfaceByName E = Ok iface
    ∧ LinkByIndex E (link_Index iface) = Ok link
    ∧ filter_key fI = (link_Index link, HANDLE_MIN_INGRESS, 1, 1)
    ∧ filter_key fE = (link_Index link, HANDLE_MIN_EGRESS, 1, 1)
    ∧ (pre = [] ∨ pre = [DeferClose Reader])
    ∧ deferred w = pre ++ [DeferFilterDel fE; DeferFilterDel fI; DeferClose Objs].
Proof.
  unfold main_body. case_decide; [discriminate|].
  destruct (InterfaceByName E) as [iface|]; [|discriminate].
  destruct (GetKernelVersion E) as [v|]; [|discriminate].
  unfold mbind at 1. unfold M_bind at 1. cbn [act].
  destruct (negb (isMinKernelVer minK v)); [discriminate|].
  unfold mbind at 1 2. unfold M_bind at 1 2. cbn [act].
  set (w0 := add_logs (banner iface v) (note_kver_read (world_start E))).
  assert (deferred w0 = []) as Hw0 by done.
  destruct (isMaxKernelVer maxK v).
  - unfold ringbuf_branch, mbind, M_bind.
    destruct (attach_both E iface RingBuffer w0) as [[[]|e] w1] eqn:Ha;
      [|apply attach_both_stop in Ha; by intros [= -> _]].
    destruct (attach_both_val _ _ _ _ _ Ha) as (link & fI & fE & Hlink & HfI & HfE & Hd).
    destruct (NewReader E); [discriminate|].
    unfold runRingBuf, mbind, M_bind, act, log_Fatalf. cbn.
    destruct (OpenFile E); [discriminate|].
    match goal with |- context [run_loop E ?md ?wl] =>
      pose proof (run_loop_frame E md wl) as (_ & _ & Hd2 & _);
      destruct (run_loop E md wl) as [[[]|e] w2] eqn:Hrl end; [discriminate|].
    cbn in Hd2. intros [= -> ->]. exists iface, link, fI, fE, []. cbn.
    rewrite Hd2, Hd, Hw0. repeat split; auto.
  - unfold perf_branch, mbind, M_bind.
    destruct (attach_both E iface PerfBuffer w0) as [[[]|e] w1] eqn:Ha;
      [|apply attach_both_stop in Ha; by intros [= -> _]].
    destruct (attach_both_val _ _ _ _ _ Ha) as (link & fI & fE & Hlink & HfI & HfE & Hd).
    destruct (NewReader E); [discriminate|].
    unfold runPerf, mbind, M_bind, act, defer_, log_Fatalf. cbn.
    destruct (OpenFile E); [discriminate|].
    match goal with |- context [run_loop E ?md ?wl] =>
      pose proof (run_loop_frame E md wl) as (_ & _ & Hd2 & _);
      destruct (run_loop E md wl) as [[[]|e] w2] eqn:Hrl end; [discriminate|].
    cbn in Hd2. intros [= -> ->]. exists iface, link, fI, fE, [DeferClose Reader]. cbn.
    rewrite Hd2, Hd, Hw0. repeat split; auto.
Qed.

(** X17. A panic of the main goroutine still cleans up: when the read loop
    panics (the send on the closed queue), the deferred calls of [main] run
    while the panic unwinds, the egress filter is deleted first and the
    ingress filter after it, and a filter whose deletion succeeds is gone
    from the table when the process dies. *)
Theorem panic_runs_deferred_deletions minK maxK E :
  (main_body minK maxK E (world_start E)).1 = Stop PanicMain →
  ∃ iface link pre rE rI,
    (main minK maxK E).1 = Stopped PanicMain
    ∧ InterfaceByName E = Ok iface
    ∧ LinkByIndex E (link_Index iface) = Ok link
    ∧ nl_calls (main minK maxK E).2
      = pre ++ [(NlFilterDel (link_Index link, HANDLE_MIN_EGRESS, 1, 1), rE);
                (NlFilterDel (link_Index link, HANDLE_MIN_INGRESS, 1, 1), rI)]
    ∧ (rE = None →
       tc_filters (main minK maxK E).2 !! (link_Index link, HANDLE_MIN_EGRESS, 1, 1) = None)
    ∧ (rI = None →
       tc_filters (main minK maxK E).2 !! (link_Index link, HANDLE_MIN_INGRESS, 1, 1) = None)
    ∧ deferred (main minK maxK E).2 = [].
Proof.
  unfold main.
  destruct (main_body minK maxK E (world_start E)) as [[[]|e] w] eqn:Hbody;
    [discriminate|].
  cbn [fst]. intros [= ->]. cbn [fst snd].
  destruct (main_body_panic _ _ _ _ Hbody)
    as (iface & link & fI & fE & pre & Hif & Hlink & HfI & HfE & Hpre & Hd).
  exists iface, link.
  assert (∃ w0, run_deferred E w
                = foldl (λ w d, run_deferred_call E d w) w0
                    [DeferFilterDel fE; DeferFilterDel fI; DeferClose Objs]
                ∧ nl_calls w0 = nl_calls w ∧ deferred w0 = []) as (w0 & Hrun & Hcalls & Hd0).
  { unfold run_deferred. rewrite Hd. destruct Hpre as [-> | ->].
    - by exists (set_deferred [] w).
    - by exists (close_resource Reader (set_deferred [] w)). }
  destruct (deferred_deletions E fE fI w0) as (rE & rI & Hn & HgE & HgI).
  cbn zeta in Hn, HgE, HgI. rewrite <- Hrun, HfE, HfI, Hcalls in *.
  exists (nl_calls w), rE, rI. repeat split; try done.
  rewrite Hrun. cbn.
  destruct (FilterDel_frame (nl_fault E) fE w0) as (_ & _ & _ & HdE & _).
  destruct (FilterDel_frame (nl_fault E) fI (FilterDel (nl_fault E) fE w0).2)
    as (_ & _ & _ & HdI & _).
  by rewrite HdI, HdE.
Qed.

Lemma panic_runs_deferred_deletions_witness :
  (main 500 580 (host 600 no_fault None late_signal)).1 = Stopped PanicMain
  ∧ tc_filters (main 500 580 (host 600 no_fault None late_signal)).2 = ∅.
Proof.
  destruct (panic_runs_deferred_deletions 500 580 (host 600 no_fault None late_signal))
    as (iface & link & pre & rE & rI & Hexit & _).
  - vm_compute. reflexivity.
  - split; [exact Hexit|]. vm_compute. reflexivity.
Defined.

(** *** The goroutines *)

Lemma step_idle mode a s :
  a ≠ Signal → idle_coordinator s → idle_coordinator (step mode a s).
Proof.
  intros Ha (Hst & Hco & Hq & Hr & Hh). unfold idle_coordinator, step.
  destruct (finished s); [done|].
  destruct a as [|ce|r|]; [done| | |].
  - unfold coordinator_step. by rewrite Hco, Hst.
  - assert (idle_coordinator (runRingBuf_loop r s)) as Hloop.
    { unfold idle_coordinator, runRingBuf_loop, queue_send. rewrite Hq.
      destruct (loop s); [| |done|done].
      - destruct (rd_Read r s) as [raw|err];
          [destruct (binary_Read raw)|destruct (errors_Is_ErrClosed err)]; done.
      - case_decide; done. }
    by destruct mode.
  - unfold consumer_step. destruct (consumer_done s); [done|].
    destruct (q_buf s); [by rewrite Hq|].
    destruct (4000 <? ev_DataLen h); cbn; [|done]. repeat split; auto.
Qed.

Lemma step_returned mode a s :
  rd_closed s = false → loop (step mode a s) = LoopReturned →
  loop s = LoopReturned
  ∨ ∃ err, a = ReadLoop (ReadError err) ∧ errors_Is_ErrClosed err = true.
Proof.
  intros Hr. unfold step. destruct (finished s); [by left|].
  destruct a as [|ce|r|].
  - by left.
  - unfold coordinator_step. destruct (coordinator s); cbn; try by left.
    + destruct (stopper s); by left.
    + destruct (q_closed s); by left.
    + destruct ce; by left.
  - intros Hret.
    assert (loop (runRingBuf_loop r s) = LoopReturned) as Hret' by (by destruct mode).
    destruct (proj2 (runRingBuf_loop_spec r s) Hret') as [?|(_ & err & Hread & Hcl)];
      [by left|].
    right. exists err. split; [|done]. unfold rd_Read in Hread. rewrite Hr in Hread.
    by rewrite Hread.
  - unfold consumer_step. destruct (consumer_done s); [by left|].
    destruct (q_buf s); [destruct (q_closed s); by left|].
    destruct (4000 <? ev_DataLen h); by left.
Qed.

Lemma exec_idle mode sched : ∀ seen s,
  Forall (λ a, a ≠ Signal) sched → idle_coordinator s →
  (loop s = LoopReturned →
   ∃ err, ReadLoop (ReadError err) ∈ seen ∧ errors_Is_ErrClosed err = true) →
  idle_coordinator (exec mode sched s)
  ∧ (loop (exec mode sched s) = LoopReturned →
     ∃ err, ReadLoop (ReadError err) ∈ seen ++ sched ∧ errors_Is_ErrClosed err = true).
Proof.
  induction sched as [|a sched IH]; intros seen s Hsig Hs Hret.
  { rewrite app_nil_r. done. }
  apply Forall_cons in Hsig as [Ha Hsig].
  replace (seen ++ a :: sched) with ((seen ++ [a]) ++ sched) by by rewrite <- app_assoc.
  apply IH; [done|by apply step_idle|].
  intros Hl. destruct Hs as (_ & _ & _ & Hr & _).
  destruct (step_returned mode a s Hr Hl) as [H|(err & -> & Hcl)].
  - destruct (Hret H) as (err & Hin & Hcl). exists err. split; [|done].
    apply elem_of_app. by left.
  - exists err. split; [|done]. apply elem_of_app. right. by apply list_elem_of_singleton.
Qed.

(** X18. Until a signal is delivered nothing shuts down: whatever the loop
    reads and however the goroutines are scheduled, the queue and the reader
    stay open, the main goroutine does not panic on a send and no goroutine
    exits through [log.Fatalf]; the loop returns only if the transport itself
    answers a read with the closed error. *)
Theorem no_signal_no_shutdown mode sched :
  Forall (λ a, a ≠ Signal) sched →
  let s := exec mode sched sys_start in
  q_closed s = false ∧ rd_closed s = false
  ∧ halted s ≠ Some PanicMain ∧ halted s ≠ Some Fatal
  ∧ (loop s = LoopReturned →
     ∃ err, ReadLoop (ReadError err) ∈ sched ∧ errors_Is_ErrClosed err = true).
Proof.
  intros Hsig. cbn zeta.
  destruct (exec_idle mode sched [] sys_start Hsig) as ((_ & _ & Hq & Hr & Hh) & Hret).
  - repeat split; auto.
  - discriminate.
  - repeat split; try done; destruct Hh as [Hh|Hh]; rewrite Hh; discriminate.
Qed.

Lemma no_signal_no_shutdown_witness :
  q_closed (exec RingBuffer
              [ReadLoop (ReadRecord sample_record); Coordinator None;
               ReadLoop (ReadError (ErrOther "interrupted")); Consumer] sys_start)
  = false.
Proof.
  apply (no_signal_no_shutdown RingBuffer
           [ReadLoop (ReadRecord sample_record); Coordinator None;
            ReadLoop (ReadError (ErrOther "interrupted")); Consumer]).
  repeat constructor; discriminate.
Defined.



Lemma step_bounded mode a s :
  (length (q_buf s) ≤ queue_capacity)%nat →
  (length (q_buf (step mode a s)) ≤ queue_capacity)%nat.
Proof.
  intros Hs. unfold step. destruct (finished s); [done|].
  destruct a as [|ce|r|]; [done| | |].
  - unfold coordinator_step. destruct (coordinator s); cbn; try done.
    + by destruct (stopper s).
    + by destruct (q_closed s).
    + by destruct ce.
  - assert (length (q_buf (runRingBuf_loop r s)) ≤ queue_capacity)%nat as Hloop.
    { unfold runRingBuf_loop, queue_send. destruct (loop s); [| |done|done].
      - destruct (rd_Read r s) as [raw|err];
          [destruct (binary_Read raw)|destruct (errors_Is_ErrClosed err)]; done.
      - destruct (q_closed s); [done|]. case_decide; cbn; [|done].
        rewrite length_app. cbn. lia. }
    by destruct mode.
  - unfold consumer_step. destruct (consumer_done s); [done|].
    destruct (q_buf s) eqn:Hb; [by destruct (q_closed s); cbn; rewrite Hb|].
    destruct (4000 <? ev_DataLen h); cbn; [by rewrite Hb|]. cbn in Hs. lia.
Qed.

Lemma exec_bounded mode sched : ∀ s,
  (length (q_buf s) ≤ queue_capacity)%nat →
  (length (q_buf (exec mode sched s)) ≤ queue_capacity)%nat.
Proof.
  induction sched as [|a sched IH]; intros s Hs; [done|].
  apply IH. by apply step_bounded.
Qed.

(** X20. The queue never holds more than its 100 events, in any run; when
    it is full and open the loop waits before its send: the step changes
    nothing, and the event it has read is neither dropped nor queued until
    the consumer makes room. *)
Theorem queue_is_bounded mode sched :
  (length (q_buf (exec mode sched sys_start)) ≤ 100)%nat
  ∧ ∀ s event r,
      finished s = false → loop s = AtSend event → q_closed s = false →
      length (q_buf s) = 100%nat →
      step mode (ReadLoop r) s = s.
Proof.
  split.
  - apply (exec_bounded mode sched sys_start). cbn. unfold queue_capacity. lia.
  - intros s event r Hfin Hl Hq Hfull. unfold step. rewrite Hfin.
    assert (runRingBuf_loop r s = s) as Hloop.
    { unfold runRingBuf_loop, queue_send. rewrite Hl, Hq.
      rewrite decide_False; [done|]. unfold queue_capacity. lia. }
    by destruct mode.
Qed.

Lemma offered_slices_snoc seen a :
  offered_slices (seen ++ [a]) = offered_slices seen ++ offered_slices [a].
Proof. unfold offered_slices. by rewrite omap_app. Qed.

Lemma offered_one_record raw :
  offered_slices [ReadLoop (ReadRecord raw)]
  = match binary_Read raw with Ok event => [payload_slice event] | Err _ => [] end.
Proof. unfold offered_slices. cbn [omap list_omap]. by destruct (binary_Read raw). Qed.

Lemma pipeline_loop_step r s seen :
  pipeline s `sublist_of` offered_slices seen →
  pipeline (runRingBuf_loop r s) `sublist_of` offered_slices (seen ++ [ReadLoop r]).
Proof.
  intros Hs. rewrite offered_slices_snoc. unfold pipeline, in_flight in Hs.
  unfold runRingBuf_loop, queue_send, pipeline, in_flight.
  destruct (loop s) eqn:Hl; cbn in Hs.
  - rewrite app_nil_r in Hs. unfold rd_Read. destruct (rd_closed s).
    { cbn. rewrite app_nil_r. by apply sublist_inserts_r. }
    destruct r as [raw|err].
    + rewrite offered_one_record. destruct (binary_Read raw) as [event|e]; cbn.
      * rewrite app_assoc. by apply sublist_app.
      * rewrite Hl, !app_nil_r. done.
    + apply sublist_inserts_r.
      destruct (errors_Is_ErrClosed err); cbn; by rewrite ?Hl, ?app_nil_r.
  - apply sublist_inserts_r. destruct (q_closed s).
    + cbn. etrans; [|exact Hs]. rewrite app_nil_r.
      apply sublist_app; [done|]. by apply sublist_inserts_r.
    + case_decide; cbn; rewrite ?Hl; [|done].
      by rewrite fmap_app, app_nil_r.
  - rewrite Hl. by apply sublist_inserts_r.
  - rewrite Hl. by apply sublist_inserts_r.
Qed.

Lemma pipeline_step mode a s seen :
  pipeline s `sublist_of` offered_slices seen →
  pipeline (step mode a s) `sublist_of` offered_slices (seen ++ [a]).
Proof.
  intros Hs. unfold step. destruct (finished s) eqn:Hfin.
  { rewrite offered_slices_snoc. by apply sublist_inserts_r. }
  destruct a as [|ce|r|].
  - rewrite offered_slices_snoc. by apply sublist_inserts_r.
  - rewrite offered_slices_snoc. apply sublist_inserts_r.
    unfold coordinator_step. destruct (coordinator s); try done.
    + by destruct (stopper s).
    + by destruct (q_closed s).
    + by destruct ce.
  - destruct mode; by apply pipeline_loop_step.
  - rewrite offered_slices_snoc. apply sublist_inserts_r.
    unfold consumer_step. destruct (consumer_done s); [done|].
    unfold pipeline, in_flight in *.
    destruct (q_buf s) as [|task rest] eqn:Hb.
    { destruct (q_closed s); cbn; by rewrite ?Hb. }
    destruct (4000 <? ev_DataLen task); cbn; [by rewrite Hb|].
    cbn in Hs. by rewrite <- app_assoc.
Qed.

Lemma pipeline_exec mode sched : ∀ seen s,
  pipeline s `sublist_of` offered_slices seen →
  pipeline (exec mode sched s) `sublist_of` offered_slices (seen ++ sched).
Proof.
  induction sched as [|a sched IH]; intros seen s Hs.
  { by rewrite app_nil_r. }
  replace (seen ++ a :: sched) with ((seen ++ [a]) ++ sched) by by rewrite <- app_assoc.
  apply IH. by apply pipeline_step.
Qed.

(** X21. The parser is handed the records in the order the loop read them,
    each at most once, and nothing else: in every run, the slices handed to
    [parseHttp], followed by those of the events still queued and of the
    event about to be sent, are a subsequence of the slices of the records
    the transport offered, in the order it offered them. A record is left
    out when it does not decode, when the loop was not reading, or when the
    process stopped before its turn. *)
Theorem parser_sees_records_in_order mode sched :
  parsed (exec mode sched sys_start) `sublist_of` offered_slices sched
  ∧ pipeline (exec mode sched sys_start) `sublist_of` offered_slices sched.
Proof.
  pose proof (pipeline_exec mode sched [] sys_start) as H. cbn [app] in H.
  assert (pipeline (exec mode sched sys_start) `sublist_of` offered_slices sched) as Hp.
  { apply H. done. }
  split; [|done]. etrans; [|exact Hp]. unfold pipeline. by apply sublist_inserts_r.
Qed.

End PrismExtra.
